(** * Virchual: circular sliding window and bullet pagination

    A shallow embedding of [src/utils/sliding-window.ts] and of the
    pagination component ([mapActiveIndex], [isEdgeBullet], [getRealIndex]
    and the [Pagination] class), with the properties of the specification
    stated and proved over it.

    JavaScript numbers that hold indices and counts are modelled as [Z];
    an array read [a[i]] is an [option] whose [None] is [undefined]. *)

From stdpp Require Import base numbers list list_numbers.

Local Open Scope Z_scope.

(** ** utils/utils.ts *)

Module Utils.

(** Modelled from the spec: [range] of [utils/utils.ts] is imported by the
    sources but its definition is not among them.  The spec uses
    [range(start - radius, start - 1)] and [range(start + 1, start + radius)]
    as the positions left and right of the centre, "left-to-right ascending
    by logical position", both bounds included, and [range(0, n - 1)] as the
    [n] slot indices; an end just below the start gives no position. *)
Definition range (start end_ : Z) : list Z :=
  seqZ start (end_ - start + 1).

(** Modelled from the spec: [rewind] of [utils/utils.ts] is imported by the
    sources but its definition is not among them.  The spec describes
    [rewind(currentIndex + sign, totalItems - 1)] as the "circular
    increment/decrement: wraps totalItems-1+1 -> 0 and 0-1 -> totalItems-1";
    an index inside [0, edge] is kept. *)
Definition rewind (index edge : Z) : Z :=
  if index >? edge then 0
  else if index <? 0 then edge
  else index.

End Utils.

(** ** utils/sliding-window.ts *)

Module SlidingWindow.
Import Utils.

(** [source.length] as a number. *)
Definition len {A} (source : list A) : Z := Z.of_nat (length source).

(** The array read [source[index]]: [undefined] outside [0, length - 1]. *)
Definition at_index {A} (source : list A) (index : Z) : option A :=
  if index <? 0 then None else source !! Z.to_nat index.

(** The numbers of the code are doubles.  The integer arithmetic below is
    what the code computes as long as the index is a safe integer (at most
    [2^53 - 1] in magnitude): up to there the quotient, its floor and the
    product with the length are exact.  Beyond, the code rounds and may read
    another item; the properties of [get] at large indices are stated up to
    that bound. *)
Definition get (source : list Z) (index : Z) : option Z :=
  if len source =? 0 then None
  else
    let isOutOfLowerBounds := index <? 0 in
    let isOutOfUpperBounds := index >? len source - 1 in
    let isOutOfBounds := isOutOfLowerBounds || isOutOfUpperBounds in
    let sign := if isOutOfUpperBounds then -1 else 1 in
    let multiple := Z.max (Z.abs index / len source) 1 in
    let index :=
      if isOutOfBounds then index + sign * multiple * len source else index in
    at_index source index.

Definition slidingWindow (source : list Z) (start size : Z) : list (option Z) :=
  let left := get source <$> range (start - size) (start - 1) in
  let center := [at_index source start] in
  let right := get source <$> range (start + 1) (start + size) in
  left ++ center ++ right.

End SlidingWindow.

(** ** utils/dom.ts *)

Module Dom.

(** A bullet is a [span] element of the document.  [uid] is the identity of
    the element (elements are compared by identity, not by content); the two
    flags say whether the element carries the "active" and the "edge" class,
    and [translateX] is the offset of its [transform] style, if one was set. *)
Record Bullet := mkBullet {
  uid : nat;
  activeClass : bool;
  edgeClass : bool;
  translateX : option Z
}.

(** Modelled from the spec: [createElement] of [utils/dom.ts] is imported by
    the sources but its definition is not among them.  It makes a new
    element, here a [span] with the bullet class and no state class; [next]
    is the supply of identities of the document. *)
Definition createElement (next : nat) : Bullet * nat :=
  (mkBullet next false false None, S next).

(** The same [createElement] called for the [div] of the pagination: a new
    element without descendants, which takes one identity from the supply. *)
Definition createContainer (next : nat) : list Bullet * nat := ([], S next).

(** Modelled from the spec: [addOrRemoveClass(element, cls, remove)] of
    [utils/dom.ts] is not among the sources.  The class is on the element
    afterwards exactly when [remove] is false (the spec: the active and edge
    flags of a slot are recomputed at every step). *)
Definition addOrRemoveClass (remove : bool) : bool := negb remove.

(** Modelled from the spec: [append] and [prepend] of [utils/dom.ts] are not
    among the sources; a new slot is inserted "at the start (if sign == -1)
    or end (if sign == +1) of the strip". *)
Definition append (parent : list Bullet) (child : Bullet) : list Bullet :=
  parent ++ [child].

Definition prepend (parent : list Bullet) (child : Bullet) : list Bullet :=
  child :: parent.

(** Modelled from the spec: [each] and [remove] of [utils/dom.ts] are not
    among the sources.  [each] calls the callback "for every existing slot
    (in slot-index order)" with the element and its index; the callback
    answers [None] when it has removed the element from the document and
    the element with its new attributes otherwise, and the result is the
    list of the elements that remain. *)
Fixpoint each (callback : Bullet -> Z -> option Bullet)
    (elements : list Bullet) (index : Z) : list Bullet :=
  match elements with
  | [] => []
  | element :: rest =>
      match callback element index with
      | Some element' => element' :: each callback rest (index + 1)
      | None => each callback rest (index + 1)
      end
  end.

End Dom.

(** ** pagination.ts *)

Module Pagination.
Import Utils.
Export Dom.

Definition mapActiveIndex (index center bullets total : Z) : Z :=
  if bullets >=? total then index
  else index - Z.max (index - center) 0
             + Z.max (index - (-1 + total - center)) 0.

Definition isEdgeBullet (index realIndex bullets total : Z) : bool :=
  let isRightEdge := index =? bullets - 1 in
  if index =? 0 then negb (index =? realIndex)
  else if isRightEdge then realIndex + 1 <? total
  else false.

Definition getRealIndex (index currentIndex activeBulletIndex : Z) : Z :=
  currentIndex - activeBulletIndex + index.

(** The optional third argument of the constructor. *)
Record Options := mkOptions {
  diameter : option Z;
  bullets : option Z;
  isActive : option bool
}.

(** The fields of a [Pagination] object.  [_ref] is the pagination element,
    given by the list of its [span] descendants in document order ([None]
    is [null]).  [doc_next] is not a field of the class: it is the supply of
    identities of the document that [createElement] draws from. *)
Record Pagination := mkPagination {
  _ref : option (list Bullet);
  _currentIndex : Z;
  _centerIndex : Z;
  _bulletsLength : Z;
  _diameter : Z;
  _isActive : bool;
  _totalSlides : Z;
  doc_next : nat
}.

(** [found] is the result of [_container.querySelector] for the pagination
    class. *)
Definition constructor (found : option (list Bullet)) (totalSlides : Z)
    (opts : Options) (next : nat) : Pagination :=
  let bulletsLength := Z.min totalSlides (default 5 (bullets opts)) in
  {| _ref := found;
     _currentIndex := 0;
     _centerIndex := bulletsLength / 2;
     _bulletsLength := bulletsLength;
     _diameter := default 16 (diameter opts);
     _isActive := default true (isActive opts);
     _totalSlides := totalSlides;
     doc_next := next |}.

(** A flag that may be [undefined]; [!undefined] is [true]. *)
Definition truthy (flag : option bool) : bool := default false flag.

(** The transform is written only for a position that is neither [null] nor
    [undefined]. *)
Definition _setAttributes (bullet : Bullet) (isActive isEdge : option bool)
    (position : option Z) : Bullet :=
  {| uid := uid bullet;
     activeClass := addOrRemoveClass (negb (truthy isActive));
     edgeClass := addOrRemoveClass (negb (truthy isEdge));
     translateX := match position with
                   | Some p => Some p
                   | None => translateX bullet
                   end |}.

Definition _renderBullet (this : Pagination) (index : Z)
    (isActive isEdge : option bool) (next : nat) : Bullet * nat :=
  let '(element, next) := createElement next in
  (_setAttributes element isActive isEdge (Some (index * _diameter this)), next).

(** The [forEach] of [render]: one bullet per index, appended to [ref]. *)
Fixpoint render_forEach (this : Pagination) (indices : list Z)
    (ref : list Bullet) (next : nat) : list Bullet * nat :=
  match indices with
  | [] => (ref, next)
  | index :: rest =>
      let isEdge :=
        isEdgeBullet index index (_bulletsLength this) (_totalSlides this) in
      let '(bullet, next) :=
        _renderBullet this index (Some (index =? _currentIndex this))
          (Some isEdge) next in
      render_forEach this rest (append ref bullet) next
  end.

Definition with_ref (this : Pagination) (ref : option (list Bullet))
    (next : nat) : Pagination :=
  {| _ref := ref;
     _currentIndex := _currentIndex this;
     _centerIndex := _centerIndex this;
     _bulletsLength := _bulletsLength this;
     _diameter := _diameter this;
     _isActive := _isActive this;
     _totalSlides := _totalSlides this;
     doc_next := next |}.

Definition with_currentIndex (this : Pagination) (index : Z) : Pagination :=
  {| _ref := _ref this;
     _currentIndex := index;
     _centerIndex := _centerIndex this;
     _bulletsLength := _bulletsLength this;
     _diameter := _diameter this;
     _isActive := _isActive this;
     _totalSlides := _totalSlides this;
     doc_next := doc_next this |}.

Definition with_isActive (this : Pagination) (flag : bool) : Pagination :=
  {| _ref := _ref this;
     _currentIndex := _currentIndex this;
     _centerIndex := _centerIndex this;
     _bulletsLength := _bulletsLength this;
     _diameter := _diameter this;
     _isActive := flag;
     _totalSlides := _totalSlides this;
     doc_next := doc_next this |}.

(** The size written to the style of the new pagination element and its
    attachment to the container are not observed by any property below and
    are left out. *)
Definition render (this : Pagination) : Pagination :=
  if negb (_isActive this) || (_totalSlides this <? 2) then
    with_isActive this false
  else
    let '(ref, next) := createContainer (doc_next this) in
    let indices :=
      range 0 (Z.min (_bulletsLength this) (_totalSlides this) - 1) in
    let '(ref, next) := render_forEach this indices ref next in
    with_ref this (Some ref) next.

(** One call of the callback of [each]: [None] when the bullet is removed
    from the document, the bullet with its new attributes otherwise. *)
Definition _handleBulletMovement (this : Pagination) (bullet : Bullet)
    (index activeIndex sign removeBulletIndex : Z) : option Bullet :=
  if removeBulletIndex =? index then None
  else
    let index := index - (if removeBulletIndex >? -1 then sign else 0) in
    let realIndex := getRealIndex index (_currentIndex this) activeIndex in
    let isEdge :=
      isEdgeBullet index realIndex (_bulletsLength this) (_totalSlides this) in
    Some (_setAttributes bullet (Some (index =? activeIndex)) (Some isEdge)
            (if removeBulletIndex >? -1 then Some (index * _diameter this)
             else None)).

Definition _insertBullet (sign : Z) (ref : list Bullet) (bullet : Bullet)
    : list Bullet :=
  let insert := if sign =? 1 then append else prepend in
  insert ref bullet.

(** [_goTo] returns [None] when it throws: [this._ref] is [null] and
    [querySelectorAll] is called on it (the index has been moved by then;
    the state left behind by the exception is not modelled).  The node list of
    [querySelectorAll] is static, so the indices seen by the callback are
    those of the strip before any removal. *)
Definition _goTo (sign : Z) (this : Pagination) : option Pagination :=
  if negb (_isActive this) then Some this
  else
    let this :=
      with_currentIndex this
        (rewind (_currentIndex this + sign) (_totalSlides this - 1)) in
    let mappedActiveIndex :=
      mapActiveIndex (_currentIndex this) (_centerIndex this)
        (_bulletsLength this) (_totalSlides this) in
    let overflowRight :=
      _currentIndex this + _centerIndex this + (if sign >? 0 then 0 else 1)
      <? _totalSlides this in
    let overflowLeft := _currentIndex this - _centerIndex this >? 0 in
    let removeBullet :=
      (mappedActiveIndex =? _centerIndex this)
      && (if sign >? 0 then overflowLeft else overflowRight) in
    let removeBulletIndex :=
      if removeBullet then
        (if sign =? 1 then 0 else _bulletsLength this - 1)
      else -1 in
    match _ref this with
    | None => None
    | Some spans =>
        let ref :=
          each (fun bullet index =>
                  _handleBulletMovement this bullet index mappedActiveIndex
                    sign removeBulletIndex)
            spans 0 in
        if removeBullet then
          let insertBulletIndex :=
            -1 + _bulletsLength this - removeBulletIndex in
          let realIndex :=
            getRealIndex insertBulletIndex (_currentIndex this)
              mappedActiveIndex in
          let isEdge :=
            isEdgeBullet insertBulletIndex realIndex (_bulletsLength this)
              (_totalSlides this) in
          let '(bullet, next) :=
            _renderBullet this insertBulletIndex None (Some isEdge)
              (doc_next this) in
          Some (with_ref this (Some (_insertBullet sign ref bullet)) next)
        else Some (with_ref this (Some ref) (doc_next this))
    end.

Definition next (this : Pagination) : option Pagination := _goTo 1 this.

Definition prev (this : Pagination) : option Pagination := _goTo (-1) this.

End Pagination.

(** ** virchual.ts *)

Module Virchual.
Import Utils SlidingWindow.

(** ['prev' | 'next']. *)
Inductive Direction := Prev | Next.

(** The [Slide] class is not among the sources.  What the widget does to a
    slide is kept as the list of the calls it makes, in order; a slide is
    named by its index in [this.slides].  The callback that [go] hands to
    [translate] (it resets [isBusy]) is run by the slide, if and when it
    decides to, and is not part of the call recorded here. *)
Inductive Call :=
  | Translate (slide x : Z)
  | SetIsActive (slide : Z) (value : bool)
  | SetPosition (slide : Z) (value : Z)
  | Mount (slide : Z) (prepend : bool)
  | Unmount (slide : Z).

(** The fields of the widget that its moves read or write.  [slides] is
    [this.slides.length] (the slides themselves are opaque), [window] is
    [this.options.window].  [isBusy] is written by [onDrag] and by the
    callback of [translate] and read by [onClick] only; it is left out. *)
Record Virchual := mkVirchual {
  currentIndex : Z;
  slides : Z;
  window : Z;
  pagination : Pagination.Pagination
}.

Definition with_currentIndex (this : Virchual) (index : Z) : Virchual :=
  {| currentIndex := index;
     slides := slides this;
     window := window this;
     pagination := pagination this |}.

Definition with_pagination (this : Virchual)
    (pagination : Pagination.Pagination) : Virchual :=
  {| currentIndex := currentIndex this;
     slides := slides this;
     window := window this;
     pagination := pagination |}.

(** The fields after the constructor has run: the index is 0, the default
    window is 1 unless [options] gives one, and the pagination is made for
    the container and the number of slides, with no option, and rendered.
    The slides are those of the frame followed by those of the options;
    [slideCount] is their number. *)
Definition constructor (found : option (list Dom.Bullet)) (slideCount : Z)
    (windowOption : option Z) (supply : nat) : Virchual :=
  {| currentIndex := 0;
     slides := slideCount;
     window := default 1 windowOption;
     pagination :=
       Pagination.render
         (Pagination.constructor found slideCount
            (Pagination.mkOptions None None None) supply) |}.

(** [Array.prototype.indexOf]: the first position holding the element
    (compared with [===]), [-1] when there is none. *)
Fixpoint indexOf_from (items : list (option Z)) (searchElement : option Z)
    (position : Z) : Z :=
  match items with
  | [] => -1
  | item :: rest =>
      if decide (item = searchElement) then position
      else indexOf_from rest searchElement (position + 1)
  end.

Definition indexOf (items : list (option Z)) (searchElement : option Z) : Z :=
  indexOf_from items searchElement 0.

(** [this.slides[index]] for an index that may be [undefined]: the slide,
    named by its index, or [None] for [undefined]. *)
Definition slideAt (this : Virchual) (index : option Z) : option Z :=
  match index with
  | Some i => if (0 <=? i) && (i <? slides this) then Some i else None
  | None => None
  end.

(** [forEach] over the entries of a window, for a callback that may throw:
    the calls made so far, and whether an exception ended the loop. *)
Fixpoint forEach (callback : list Call -> option Z -> list Call * bool)
    (entries : list (option Z)) (history : list Call) : list Call * bool :=
  match entries with
  | [] => (history, false)
  | entry :: rest =>
      let '(history, thrown) := callback history entry in
      if thrown then (history, true) else forEach callback rest history
  end.

Section Slides.

(** [isMounted history slide] is the value read from [slides[slide].isMounted]
    after the calls of [history]; it is decided by the [Slide] class. *)
Variable isMounted : list Call -> Z -> bool.

(** The callback of the [forEach] of [mountAndUnmountSlides].  A method
    called on [undefined] throws a [TypeError]. *)
Definition mountOrUnmount (this : Virchual) (direction : option Direction)
    (mountableSlideIndices : list (option Z)) (history : list Call)
    (index : option Z) : list Call * bool :=
  let slide := slideAt this index in
  match slideAt this (Some (currentIndex this)) with
  | None => (history, true)
  | Some currentSlide =>
      let history :=
        history
        ++ [SetIsActive currentSlide
              (bool_decide (index = Some (currentIndex this)))] in
      let realIndex := indexOf mountableSlideIndices index in
      if realIndex <? 0 then
        match slide with
        | None => (history, true)
        | Some slide => (history ++ [Unmount slide], false)
        end
      else
        match slide with
        | None => (history, true)
        | Some slide =>
            let history :=
              history
              ++ [SetPosition slide ((window this - realIndex) * -100)] in
            match direction with
            | Some Prev => (history ++ [Mount slide true], false)
            | Some Next => (history ++ [Mount slide false], false)
            | None =>
                match slideAt this (Some 0) with
                | None => (history, true)
                | Some first =>
                    let prepend :=
                      isMounted history first
                      && (realIndex - window this <? 0) in
                    (history ++ [Mount slide prepend], false)
                end
            end
        end
  end.

Definition mountAndUnmountSlides (this : Virchual)
    (direction : option Direction) (history : list Call)
    : list Call * bool :=
  let indices := range 0 (slides this - 1) in
  let mountableSlideIndices :=
    slidingWindow indices (currentIndex this) (window this) in
  let mountableSlideIndicesWithOffset :=
    slidingWindow indices (currentIndex this) (window this + 1) in
  forEach (mountOrUnmount this direction mountableSlideIndices)
    mountableSlideIndicesWithOffset history.

(** [mount()]; the event it emits first is left out. *)
Definition mount (this : Virchual) (history : list Call) : list Call * bool :=
  mountAndUnmountSlides this None history.

(** [go(direction)]: the widget after the move, the calls made on the
    slides, and whether an exception ended the move.  The state of the
    pagination after an exception of its own is not modelled. *)
Definition go (direction : Direction) (this : Virchual)
    (history : list Call) : Virchual * list Call * bool :=
  match slideAt this (Some (currentIndex this)) with
  | None => (this, history, true)
  | Some slide =>
      let history := history ++ [Translate slide (-100)] in
      let sign := match direction with Prev => -1 | Next => 1 end in
      let this :=
        with_currentIndex this
          (rewind (currentIndex this + sign * 1) (slides this - 1)) in
      let '(history, thrown) :=
        mountAndUnmountSlides this (Some direction) history in
      if thrown then (this, history, true)
      else
        let move :=
          match direction with
          | Prev => Pagination.prev
          | Next => Pagination.next
          end in
        match move (pagination this) with
        | None => (this, history, true)
        | Some moved => (with_pagination this moved, history, false)
        end
  end.

(** [prev()] and [next()] of the widget; their [console.debug] is left
    out. *)
Definition prev (this : Virchual) (history : list Call)
    : Virchual * list Call * bool :=
  go Prev this history.

Definition next (this : Virchual) (history : list Call)
    : Virchual * list Call * bool :=
  go Next this history.

End Slides.

End Virchual.

Import Utils SlidingWindow Pagination.

(** ** Vocabulary of the specification *)

(** [Number.MAX_SAFE_INTEGER]: the largest integer up to which every
    integer is a double. *)
Definition MAX_SAFE_INTEGER : Z := 2 ^ 53 - 1.

(** The bullet strip: the slots of the pagination element, none when there
    is no element. *)
Definition strip (this : Pagination) : list Bullet := default [] (_ref this).

(** The slot that [_goTo] treats as active for the current index. *)
Definition activeSlot (this : Pagination) : Z :=
  mapActiveIndex (_currentIndex this) (_centerIndex this)
    (_bulletsLength this) (_totalSlides this).

(** The real indices represented by the strip: [getRealIndex] over all its
    slots, in slot order. *)
Definition realIndices (this : Pagination) : list Z :=
  (fun index => getRealIndex index (_currentIndex this) (activeSlot this))
    <$> range 0 (len (strip this) - 1).

(** The slots of [before], counted from [index], whose element is not among
    the identities [after]. *)
Fixpoint evicted_from (index : Z) (before : list Bullet) (after : list nat)
    : list Z :=
  match before with
  | [] => []
  | bullet :: rest =>
      (if decide (uid bullet ∈ after) then [] else [index])
      ++ evicted_from (index + 1) rest after
  end.

(** The slots of the strip of [before] whose bullet is no longer in the
    strip of [after]. *)
Definition evictedSlots (before after : Pagination) : list Z :=
  evicted_from 0 (strip before) (uid <$> strip after).

(** The eviction rule in the words of the specification, read on the state
    after the current index has moved: the active slot is the centre slot
    and, going forward, [currentIndex - centerSlot > 0], going backward,
    [currentIndex + centerSlot + 1 < totalItems]. *)
Definition evictionDue (sign : Z) (this : Pagination) : bool :=
  (activeSlot this =? _centerIndex this)
  && (if sign =? 1 then _currentIndex this - _centerIndex this >? 0
      else _currentIndex this + _centerIndex this + 1 <? _totalSlides this).

(** The slot that the specification removes when it evicts. *)
Definition evictedSlot (sign : Z) (this : Pagination) : Z :=
  if sign =? 1 then 0 else _bulletsLength this - 1.

(** [advance(sign)] called [n] times in a row. *)
Fixpoint advance_times (sign : Z) (n : nat) (this : Pagination)
    : option Pagination :=
  match n with
  | O => Some this
  | S n' =>
      match _goTo sign this with
      | Some this' => advance_times sign n' this'
      | None => None
      end
  end.

(** The callback that [_goTo] passes to [each]. *)
Definition bulletCallback (this : Pagination)
    (activeIndex sign removeBulletIndex : Z) : Bullet -> Z -> option Bullet :=
  fun bullet index =>
    _handleBulletMovement this bullet index activeIndex sign removeBulletIndex.

(** The states of a pagination object that was constructed and rendered, as
    the widget does, and then moved by [next] and [prev]. *)
Inductive reachable (found : option (list Bullet)) (total : Z)
    (opts : Options) (supply : nat) : Pagination -> Prop :=
  | reachable_render :
      reachable found total opts supply
        (render (constructor found total opts supply))
  | reachable_next this this' :
      reachable found total opts supply this ->
      next this = Some this' ->
      reachable found total opts supply this'
  | reachable_prev this this' :
      reachable found total opts supply this ->
      prev this = Some this' ->
      reachable found total opts supply this'.

(** What holds of every state reached from [constructor found total opts
    supply]: the configuration never changes; an active pagination has two
    items or more, a current index inside the items and a strip of
    [_bulletsLength] distinct bullets, all drawn from the supply; an
    inactive one is still the object as rendered. *)
Definition wellFormed (found : option (list Bullet)) (total : Z)
    (opts : Options) (supply : nat) (this : Pagination) : Prop :=
  _totalSlides this = total
  /\ _bulletsLength this = Z.min total (default 5 (bullets opts))
  /\ _centerIndex this = _bulletsLength this / 2
  /\ (_isActive this = true ->
      2 <= total
      /\ 0 <= _currentIndex this < total
      /\ exists spans,
           _ref this = Some spans
           /\ len spans = _bulletsLength this
           /\ NoDup (uid <$> spans)
           /\ Forall (fun u => (u < doc_next this)%nat) (uid <$> spans))
  /\ (_isActive this = false ->
      this = with_isActive (constructor found total opts supply) false).

(** The edge flag that [isEdgeBullet] gives to the slot [index] of [this],
    for the real index that [getRealIndex] gives to the slot. *)
Definition edgeOf (this : Pagination) (index : Z) : bool :=
  isEdgeBullet index
    (getRealIndex index (_currentIndex this) (activeSlot this))
    (_bulletsLength this) (_totalSlides this).

(** The attributes of the bullets agree with their slots: the edge class is
    the edge flag of the slot, the offset is the slot times the diameter,
    and only the active slot can carry the active class. *)
Definition attributesAgree (this : Pagination) : Prop :=
  forall (slot : nat) (bullet : Bullet),
    strip this !! slot = Some bullet ->
    edgeClass bullet = edgeOf this (Z.of_nat slot)
    /\ translateX bullet = Some (Z.of_nat slot * _diameter this)
    /\ (activeClass bullet = true -> Z.of_nat slot = activeSlot this).

(** The active class marks the active slot and no other. *)
Definition activeAgrees (this : Pagination) : Prop :=
  forall (slot : nat) (bullet : Bullet),
    strip this !! slot = Some bullet ->
    activeClass bullet = (Z.of_nat slot =? activeSlot this).

(** The bullet that [_handleBulletMovement] leaves in place of [bullet],
    seen at [index], when it does not remove it. *)
Definition movedBullet (this : Pagination) (activeIndex sign removeBulletIndex : Z)
    (bullet : Bullet) (index : Z) : Bullet :=
  let index := index - (if removeBulletIndex >? -1 then sign else 0) in
  _setAttributes bullet (Some (index =? activeIndex))
    (Some (isEdgeBullet index
             (getRealIndex index (_currentIndex this) activeIndex)
             (_bulletsLength this) (_totalSlides this)))
    (if removeBulletIndex >? -1 then Some (index * _diameter this) else None).

(** An entry of a window over the slide indices: the index of the slide at
    a position, wrapped into the slides. *)
Definition wrappedIndex (count position : Z) : option Z :=
  Some (position mod count).

(** The sign that [go] gives to a direction. *)
Definition signOf (direction : Virchual.Direction) : Z :=
  match direction with Virchual.Prev => -1 | Virchual.Next => 1 end.

(** The states of a widget that was constructed and then moved by [go],
    each move having returned without an exception. *)
Inductive widgetReachable (isMounted : list Virchual.Call -> Z -> bool)
    (found : option (list Bullet)) (slideCount : Z) (windowOption : option Z)
    (supply : nat) : Virchual.Virchual -> Prop :=
  | widget_constructed :
      widgetReachable isMounted found slideCount windowOption supply
        (Virchual.constructor found slideCount windowOption supply)
  | widget_moved direction this history this' history' :
      widgetReachable isMounted found slideCount windowOption supply this ->
      Virchual.go isMounted direction this history = (this', history', false) ->
      widgetReachable isMounted found slideCount windowOption supply this'.

(** The calls of [mountAndUnmountSlides] for a direction, when the slides
    are enough for the window and its two neighbours to be all different:
    the slide just left of the window is unmounted, each slide of the
    window is positioned and mounted, from left to right, and the slide
    just right of the window is unmounted; before each of them the active
    flag of the current slide is written. *)
Definition moveCalls (this : Virchual.Virchual)
    (direction : Virchual.Direction) : list Virchual.Call :=
  let current := Virchual.currentIndex this in
  let radius := Virchual.window this in
  let count := Virchual.slides this in
  let prepend :=
    match direction with Virchual.Prev => true | Virchual.Next => false end in
  [Virchual.SetIsActive current false;
   Virchual.Unmount ((current - radius - 1) mod count)]
  ++ concat
       ((fun position =>
           [Virchual.SetIsActive current (position =? current);
            Virchual.SetPosition (position mod count)
              ((position - current) * 100);
            Virchual.Mount (position mod count) prepend])
          <$> range (current - radius) (current + radius))
  ++ [Virchual.SetIsActive current false;
      Virchual.Unmount ((current + radius + 1) mod count)].

(** ** Sample paginations *)

(** The constructor called without its third argument, as the widget does. *)
Definition defaults : Options := mkOptions None None None.

(** Ten slides and the default five bullets, rendered in an empty container. *)
Definition ten_slides : Pagination := render (constructor None 10 defaults 0).

(** The same after two calls of [next]: the current index is 2. *)
Definition ten_slides_at_two : Pagination :=
  default ten_slides (advance_times 1 2 ten_slides).

(** Ten slides and four bullets. *)
Definition four_bullets : Options := mkOptions None (Some 4) None.

Definition ten_slides_four_bullets : Pagination :=
  render (constructor None 10 four_bullets 0).

(** Three slides, pagination switched off by the caller. *)
Definition switched_off : Options := mkOptions None None (Some false).

Definition three_slides_switched_off : Pagination :=
  render (constructor None 3 switched_off 0).

(** Ten slides and a strip configured with no bullet at all. *)
Definition no_bullets : Options := mkOptions None (Some 0) None.

Definition ten_slides_no_bullets : Pagination :=
  render (constructor None 10 no_bullets 0).

(** Three slides: every slide has its bullet. *)
Definition three_slides : Pagination := render (constructor None 3 defaults 0).

(** ** Sample widgets *)

(** A [Slide] class for which no slide ever reads as mounted. *)
Definition never_mounted : list Virchual.Call -> Z -> bool :=
  fun _ _ => false.

(** Ten slides, the default window of one slide on each side. *)
Definition ten_slide_widget : Virchual.Virchual :=
  Virchual.constructor None 10 None 0.

(** * Properties of the sliding window *)

Section SlidingWindowFacts.

Implicit Types (source : list Z) (index start size : Z).

Lemma length_range a b : len (range a b) = Z.max 0 (b - a + 1).
Proof. unfold len, range. rewrite length_seqZ. lia. Qed.

Lemma at_index_lookup source index :
  0 <= index -> at_index source index = source !! Z.to_nat index.
Proof.
  intros Hge. unfold at_index.
  destruct (Z.ltb_spec index 0); [lia | reflexivity].
Qed.

Lemma at_index_negative source index : index < 0 -> at_index source index = None.
Proof.
  intros Hlt. unfold at_index.
  destruct (Z.ltb_spec index 0); [reflexivity | lia].
Qed.

(** Inside the array nothing is shifted. *)
Lemma get_in_range source index :
  0 <= index < len source -> get source index = source !! Z.to_nat index.
Proof.
  intros [Hlo Hhi]. unfold get.
  destruct (Z.eqb_spec (len source) 0) as [Hz | _]; [lia |].
  destruct (Z.ltb_spec index 0); [lia |].
  destruct (Z.gtb_spec index (len source - 1)); [lia |].
  cbn. by apply at_index_lookup.
Qed.

(** Above the array the shift is the full quotient, so any displacement to
    the right is corrected. *)
Lemma get_above source index :
  0 < len source -> len source <= index ->
  get source index = source !! Z.to_nat (index mod len source).
Proof.
  intros Hpos Hge. unfold get.
  destruct (Z.eqb_spec (len source) 0) as [Hz | _]; [lia |].
  destruct (Z.ltb_spec index 0); [lia |].
  destruct (Z.gtb_spec index (len source - 1)); [| lia].
  cbn.
  assert (1 <= index / len source) by (apply Z.div_le_lower_bound; lia).
  rewrite Z.abs_eq, Z.max_l by lia.
  replace (index + -1 * (index / len source) * len source)
    with (index mod len source) by (rewrite Z.mod_eq; lia).
  apply at_index_lookup. apply Z.mod_pos_bound. lia.
Qed.

(** One length below the array the single shift by one length suffices. *)
Lemma get_below_one source index :
  0 < len source -> - len source <= index < 0 ->
  get source index = source !! Z.to_nat (index mod len source).
Proof.
  intros Hpos [Hlo Hhi]. unfold get.
  destruct (Z.eqb_spec (len source) 0) as [Hz | _]; [lia |].
  destruct (Z.ltb_spec index 0); [| lia].
  destruct (Z.gtb_spec index (len source - 1)); [lia |].
  cbn.
  assert (Z.abs index / len source <= 1).
  { apply Z.div_le_upper_bound; lia. }
  assert (0 <= Z.abs index / len source) by (apply Z.div_pos; lia).
  rewrite Z.max_r by lia.
  assert (index mod len source = index + 1 * 1 * len source) as ->.
  { symmetry. apply (Z.mod_unique_pos _ _ (-1)); lia. }
  apply at_index_lookup. lia.
Qed.

Lemma get_wraps source index :
  0 < len source -> - len source <= index ->
  get source index = source !! Z.to_nat (index mod len source).
Proof.
  intros Hpos Hlo.
  destruct (Z.lt_ge_cases index 0); [by apply get_below_one |].
  destruct (Z.lt_ge_cases index (len source)); [| by apply get_above].
  rewrite Z.mod_small by lia. by apply get_in_range.
Qed.

(** More than one length below the array, in an array of two or more items,
    the position just below [-N] is shifted once and stays negative. *)
Lemma get_below_two source :
  2 <= len source -> get source (- (len source + 1)) = None.
Proof.
  intros Hlen. unfold get.
  destruct (Z.eqb_spec (len source) 0) as [Hz | _]; [lia |].
  destruct (Z.ltb_spec (- (len source + 1)) 0); [| lia].
  destruct (Z.gtb_spec (- (len source + 1)) (len source - 1)); [lia |].
  cbn.
  assert (Z.abs (- (len source + 1)) / len source = 1) as ->.
  { rewrite Z.abs_neq by lia. symmetry.
    apply (Z.div_unique_pos _ _ 1 1); lia. }
  cbn. apply at_index_negative. lia.
Qed.

(** The window as the reads of consecutive unwrapped positions. *)
Lemma slidingWindow_positions source start size :
  0 <= size ->
  slidingWindow source start size =
    (get source <$> range (start - size) (start - 1))
    ++ at_index source start
    :: (get source <$> range (start + 1) (start + size)).
Proof. reflexivity. Qed.

(** C1: on [1,2,3,4,5] the windows at (0,1), (4,1), (2,2), (1,2) and (4,2)
    are [5,1,2], [4,5,1], [1,2,3,4,5], [5,1,2,3,4] and [3,4,5,1,2]; and for
    a non-empty source, a valid start and a radius below the length, the
    window is the list of the items at the positions [start - size], ...,
    [start + size] taken modulo the length, in that order. *)
Theorem slidingWindow_examples_and_wrap :
  (slidingWindow [1; 2; 3; 4; 5] 0 1 = [Some 5; Some 1; Some 2]
   /\ slidingWindow [1; 2; 3; 4; 5] 4 1 = [Some 4; Some 5; Some 1]
   /\ slidingWindow [1; 2; 3; 4; 5] 2 2
      = [Some 1; Some 2; Some 3; Some 4; Some 5]
   /\ slidingWindow [1; 2; 3; 4; 5] 1 2
      = [Some 5; Some 1; Some 2; Some 3; Some 4]
   /\ slidingWindow [1; 2; 3; 4; 5] 4 2
      = [Some 3; Some 4; Some 5; Some 1; Some 2])
  /\ (forall source start size,
        0 <= start < len source -> 0 <= size < len source ->
        slidingWindow source start size =
          (fun position => source !! Z.to_nat (position mod len source))
            <$> range (start - size) (start + size)).
Proof.
  split; [repeat split; reflexivity |].
  intros source start size Hstart Hsize.
  rewrite slidingWindow_positions by lia.
  unfold range.
  replace (start - 1 - (start - size) + 1) with size by lia.
  replace (start + size - (start + 1) + 1) with size by lia.
  replace (start + size - (start - size) + 1) with (size + (1 + size)) by lia.
  rewrite (seqZ_app (start - size) size (1 + size)) by lia.
  rewrite (seqZ_app (start - size + size) 1 size) by lia.
  replace (start - size + size) with start by lia.
  rewrite (seqZ_cons start 1), (seqZ_nil _ (Z.pred 1)) by lia.
  rewrite !fmap_app. cbn [fmap list_fmap app].
  rewrite (Z.mod_small start) by lia.
  rewrite <- at_index_lookup by lia.
  f_equal; [| f_equal].
  - apply list_fmap_ext. intros i position Hi.
    apply lookup_seqZ in Hi. apply get_wraps; lia.
  - apply list_fmap_ext. intros i position Hi.
    apply lookup_seqZ in Hi. apply get_wraps; lia.
Qed.

Lemma slidingWindow_examples_and_wrap_witness :
  slidingWindow [10; 20; 30] 0 2
  = (fun position => [10; 20; 30] !! Z.to_nat (position mod len [10; 20; 30]))
      <$> range (0 - 2) (0 + 2).
Proof.
  apply (proj2 slidingWindow_examples_and_wrap [10; 20; 30] 0 2);
    unfold len; simpl; lia.
Defined.

(** C2: for every source (also one shorter than the window, or empty),
    every start and every radius [r >= 0], the window has [2 * r + 1]
    entries. *)
Theorem slidingWindow_length source start size :
  0 <= size -> len (slidingWindow source start size) = 2 * size + 1.
Proof.
  intros Hsize. unfold slidingWindow, len.
  rewrite !length_app, !length_fmap. cbn [length].
  pose proof (length_range (start - size) (start - 1)) as Hl.
  pose proof (length_range (start + 1) (start + size)) as Hr.
  unfold len in Hl, Hr. lia.
Qed.

Lemma slidingWindow_length_witness :
  len (slidingWindow [1; 2] 1 3) = 2 * 3 + 1.
Proof. apply (slidingWindow_length [1; 2] 1 3). lia. Defined.

(** In an array of one item every position below the array is shifted by
    its full distance and reads the item. *)
Lemma get_singleton (item index : Z) : index < 0 -> get [item] index = Some item.
Proof.
  intros Hneg. unfold get. change (len [item]) with 1.
  destruct (Z.ltb_spec index 0); [| lia].
  destruct (Z.gtb_spec index (1 - 1)); [lia |].
  cbn [orb Z.eqb]. rewrite Z.div_1_r, Z.abs_neq, Z.max_l by lia.
  replace (index + 1 * - index * 1) with 0 by lia. reflexivity.
Qed.

(** The reading of C10 that the code refutes: in the one-item array [[7]]
    no position below [-N] reads [undefined], the position [-(N + 1)]
    reads the item, and the window of radius 2, whose leftmost position
    [-2] is below [-N], has no [undefined] entry. *)
Lemma get_single_item_never_undefined :
  ~ (exists index, index < - len [7] /\ get [7] index = None)
  /\ get [7] (- (len [7] + 1)) = Some 7
  /\ (0 - 2 < - len [7] /\ None ∉ slidingWindow [7] 0 2).
Proof.
  split; [| split; [reflexivity | split; [reflexivity |]]].
  - intros (index & Hlt & Hget). unfold len in Hlt. cbn in Hlt.
    rewrite get_singleton in Hget by lia. discriminate.
  - vm_compute. intros Hin.
    repeat (apply elem_of_cons in Hin as [Heq | Hin]; [discriminate |]).
    by apply elem_of_nil in Hin.
Qed.

(** C10 (amended): for a non-empty source of length [N], [get] returns the
    item at [index mod N] for every index from [-N] up to the largest safe
    integer; when [N >= 2] the position [-(N + 1)] reads [undefined], and
    every window with a valid start whose leftmost position is below [-N]
    has an [undefined] entry. *)
Theorem get_asymmetric source :
  0 < len source ->
  (forall index, - len source <= index <= MAX_SAFE_INTEGER ->
     get source index = source !! Z.to_nat (index mod len source))
  /\ (2 <= len source ->
      get source (- (len source + 1)) = None
      /\ forall start size,
           0 <= start < len source -> start - size < - len source ->
           None ∈ slidingWindow source start size).
Proof.
  intros Hpos. split; [intros index [Hlo _]; by apply get_wraps |].
  intros Hlen. split; [by apply get_below_two |].
  intros start size Hstart Hleft. unfold slidingWindow.
  apply elem_of_app. left. apply list_elem_of_fmap.
  exists (- (len source + 1)). split; [symmetry; by apply get_below_two |].
  unfold range. apply elem_of_seqZ. lia.
Qed.

Lemma get_asymmetric_witness :
  (forall index, - len [1; 2] <= index <= MAX_SAFE_INTEGER ->
     get [1; 2] index = [1; 2] !! Z.to_nat (index mod len [1; 2]))
  /\ get [1; 2] (- (len [1; 2] + 1)) = None
  /\ None ∈ slidingWindow [1; 2] 0 4.
Proof.
  assert (0 < len [1; 2]) as Hpos by (unfold len; simpl; lia).
  assert (2 <= len [1; 2]) as Hlen by (unfold len; simpl; lia).
  destruct (get_asymmetric [1; 2] Hpos) as [Hwrap Hbelow].
  destruct (Hbelow Hlen) as [Hundef Hwindow].
  split; [exact Hwrap | split; [exact Hundef |]].
  apply Hwindow; unfold len; simpl; lia.
Defined.

End SlidingWindowFacts.

(** * Properties of the index mapping *)

Section IndexMapping.

Implicit Types (index center bullets total realIndex : Z).

(** C9: when the strip has at least as many bullets as there are items,
    [mapActiveIndex] is the identity on the index. *)
Theorem mapActiveIndex_identity index center bullets total :
  bullets >= total -> mapActiveIndex index center bullets total = index.
Proof.
  intros Hge. unfold mapActiveIndex.
  destruct (Z.geb_spec bullets total); [reflexivity | lia].
Qed.

Lemma mapActiveIndex_identity_witness : mapActiveIndex 3 2 5 4 = 3.
Proof. apply (mapActiveIndex_identity 3 2 5 4). lia. Defined.

Lemma mapActiveIndex_compress index center bullets total :
  bullets < total ->
  mapActiveIndex index center bullets total
  = index - Z.max (index - center) 0
    + Z.max (index - (-1 + total - center)) 0.
Proof.
  intros Hlt. unfold mapActiveIndex.
  destruct (Z.geb_spec bullets total); [lia | reflexivity].
Qed.

(** With an odd number of bullets, or with all items shown, the mapped index
    is a slot of the strip. *)
Lemma mapActiveIndex_in_strip index bullets total :
  1 <= bullets ->
  bullets mod 2 = 1 \/ bullets >= total ->
  0 <= index <= total - 1 ->
  0 <= mapActiveIndex index (bullets / 2) bullets total <= bullets - 1.
Proof.
  intros Hb Hshape Hindex.
  destruct (Z.lt_ge_cases bullets total) as [Hlt | Hge].
  - destruct Hshape as [Hodd | ?]; [| lia].
    rewrite mapActiveIndex_compress by lia.
    pose proof (Z.div_mod bullets 2 ltac:(lia)). lia.
  - unfold mapActiveIndex.
    destruct (Z.geb_spec bullets total); lia.
Qed.

(** With an even number of bullets, fewer than the items, the last item is
    mapped one past the last slot. *)
Lemma mapActiveIndex_even_past_strip bullets total :
  1 <= bullets < total -> bullets mod 2 = 0 ->
  mapActiveIndex (total - 1) (bullets / 2) bullets total = bullets.
Proof.
  intros Hb Heven. rewrite mapActiveIndex_compress by lia.
  pose proof (Z.div_mod bullets 2 ltac:(lia)). lia.
Qed.

(** C3, at the input where the code leaves the strip: with ten items and
    four bullets (centre slot [4 / 2 = 2]) the index 9 is mapped to 4, which
    is not in [[0, 3]]. *)
Theorem mapActiveIndex_four_bullets_of_ten :
  mapActiveIndex 9 (4 / 2) 4 10 = 4
  /\ ~ (0 <= mapActiveIndex 9 (4 / 2) 4 10 <= 4 - 1).
Proof. split; [reflexivity |]. vm_compute. intros [_ Hle]. by apply Hle. Qed.

(** The second clause of C4 fails for a strip of one bullet: slot [n - 1] is
    slot 0 and follows the left-edge rule. *)
Lemma isEdgeBullet_single_slot :
  ~ (isEdgeBullet (1 - 1) 0 1 5 = true <-> 0 + 1 < 5).
Proof.
  intros [_ Himp]. specialize (Himp ltac:(lia)).
  vm_compute in Himp. discriminate.
Qed.

(** C4 (amended): slot 0 is an edge iff its real index is not 0; in a strip
    of two or more bullets slot [n - 1] is an edge iff
    [realIndex + 1 < total]; every slot strictly between is not an edge. *)
Theorem isEdgeBullet_slots n total realIndex :
  1 <= n -> 1 <= total ->
  (isEdgeBullet 0 realIndex n total = true <-> realIndex <> 0)
  /\ (2 <= n ->
      (isEdgeBullet (n - 1) realIndex n total = true <-> realIndex + 1 < total))
  /\ (forall i, 0 < i < n - 1 -> isEdgeBullet i realIndex n total = false).
Proof.
  intros _ _. split; [| split].
  - change (isEdgeBullet 0 realIndex n total) with (negb (0 =? realIndex)).
    destruct (Z.eqb_spec 0 realIndex) as [<- | Hne].
    + split; [discriminate | congruence].
    + split; [congruence | reflexivity].
  - intros Hn. unfold isEdgeBullet.
    destruct (Z.eqb_spec (n - 1) 0); [lia |].
    rewrite Z.eqb_refl. apply Z.ltb_lt.
  - intros i Hi. unfold isEdgeBullet.
    destruct (Z.eqb_spec i 0); [lia |].
    destruct (Z.eqb_spec i (n - 1)); [lia | reflexivity].
Qed.

Lemma isEdgeBullet_slots_witness :
  (isEdgeBullet 0 3 5 10 = true <-> 3 <> 0)
  /\ (isEdgeBullet (5 - 1) 3 5 10 = true <-> 3 + 1 < 10)
  /\ isEdgeBullet 2 3 5 10 = false.
Proof.
  destruct (isEdgeBullet_slots 5 10 3 ltac:(lia) ltac:(lia))
    as (Hleft & Hright & Hinner).
  split; [exact Hleft | split; [apply Hright; lia | apply Hinner; lia]].
Defined.

End IndexMapping.

(** * Properties of the pagination steps *)

Section BulletMovement.

Variables (this : Pagination) (activeIndex sign : Z).

Local Abbreviation move := (bulletCallback this activeIndex sign).

Lemma each_app callback (front back : list Bullet) index :
  each callback (front ++ back) index
  = each callback front index ++ each callback back (index + len front).
Proof.
  revert index. induction front as [| bullet front IH]; intros index.
  - cbn. f_equal. unfold len. cbn. lia.
  - cbn [app each]. rewrite IH.
    replace (index + 1 + len front) with (index + len (bullet :: front))
      by (unfold len; cbn [length]; lia).
    by destruct (callback bullet index).
Qed.

Lemma move_removed bullet index : move index bullet index = None.
Proof.
  unfold bulletCallback, _handleBulletMovement. by rewrite Z.eqb_refl.
Qed.

Lemma move_kept removeBulletIndex bullet index :
  removeBulletIndex <> index ->
  exists bullet',
    move removeBulletIndex bullet index = Some bullet'
    /\ uid bullet' = uid bullet.
Proof.
  intros Hne. unfold bulletCallback, _handleBulletMovement.
  destruct (Z.eqb_spec removeBulletIndex index); [done |].
  eexists. split; [reflexivity | reflexivity].
Qed.

(** A removal index outside the slots visited leaves every element where it
    is. *)
Lemma each_move_kept removeBulletIndex spans index :
  removeBulletIndex < index \/ index + len spans <= removeBulletIndex ->
  uid <$> each (move removeBulletIndex) spans index = uid <$> spans.
Proof.
  revert index. induction spans as [| bullet spans IH]; intros index Hout.
  - reflexivity.
  - unfold len in Hout. cbn [length] in Hout. cbn [each].
    destruct (move_kept removeBulletIndex bullet index) as (b' & -> & Huid);
      [lia |].
    cbn [fmap list_fmap]. rewrite Huid. f_equal.
    apply IH. unfold len. lia.
Qed.

Lemma each_move_first bullet spans index :
  uid <$> each (move index) (bullet :: spans) index = uid <$> spans.
Proof.
  cbn [each]. rewrite move_removed. apply each_move_kept. lia.
Qed.

Lemma each_move_last spans bullet index :
  uid <$> each (move (index + len spans)) (spans ++ [bullet]) index
  = uid <$> spans.
Proof.
  rewrite each_app, fmap_app. cbn [each]. rewrite move_removed.
  cbn. rewrite app_nil_r. apply each_move_kept. lia.
Qed.

End BulletMovement.

Section Steps.

Implicit Types (this : Pagination) (spans : list Bullet) (sign : Z).

Lemma render_forEach_uids this indices ref supply :
  uid <$> (render_forEach this indices ref supply).1
  = (uid <$> ref) ++ seq supply (length indices)
  /\ (render_forEach this indices ref supply).2
     = (supply + length indices)%nat.
Proof.
  revert ref supply. induction indices as [| index indices IH];
    intros ref supply.
  - cbn. rewrite app_nil_r. split; [reflexivity | lia].
  - cbn [render_forEach _renderBullet createElement].
    destruct (IH (append ref
                    (_setAttributes (mkBullet supply false false None)
                       (Some (index =? _currentIndex this))
                       (Some (isEdgeBullet index index (_bulletsLength this)
                                (_totalSlides this)))
                       (Some (index * _diameter this))))
                 (S supply)) as [Huids Hnext].
    rewrite Huids, Hnext. unfold append. rewrite fmap_app.
    cbn [fmap list_fmap _setAttributes uid length seq].
    rewrite <- app_assoc. split; [reflexivity | lia].
Qed.

Lemma goTo_inactive sign this :
  _isActive this = false -> _goTo sign this = Some this.
Proof. intros Hoff. unfold _goTo. by rewrite Hoff. Qed.

(** One step of an active pagination whose strip has its [_bulletsLength]
    bullets: the index moves, and the identities in the strip are those
    before, less the evicted slot and plus one new element when the eviction
    rule applies. *)
Lemma goTo_active sign this spans :
  _isActive this = true ->
  _ref this = Some spans ->
  len spans = _bulletsLength this ->
  sign = 1 \/ sign = -1 ->
  let moved :=
    with_currentIndex this
      (rewind (_currentIndex this + sign) (_totalSlides this - 1)) in
  exists spans',
    _goTo sign this
    = Some (with_ref moved (Some spans')
              (if evictionDue sign moved then S (doc_next this)
               else doc_next this))
    /\ uid <$> spans'
       = if evictionDue sign moved then
           (if sign =? 1 then drop 1 (uid <$> spans) ++ [doc_next this]
            else doc_next this :: take (length spans - 1) (uid <$> spans))
         else uid <$> spans.
Proof.
  intros Hon Href Hlen Hsign moved.
  unfold _goTo. rewrite Hon. cbn [negb].
  fold moved.
  change (_ref moved) with (_ref this). rewrite Href.
  change (mapActiveIndex (_currentIndex moved) (_centerIndex moved)
            (_bulletsLength moved) (_totalSlides moved))
    with (activeSlot moved).
  destruct Hsign as [-> | ->].
  - change (1 >? 0) with true. change (1 =? 1) with true. cbv iota.
    change ((activeSlot moved =? _centerIndex moved)
            && (_currentIndex moved - _centerIndex moved >? 0))
      with (evictionDue 1 moved).
    destruct (evictionDue 1 moved).
    + eexists. split; [reflexivity |].
      unfold _insertBullet, append. cbn [Z.eqb Pos.eqb].
      rewrite fmap_app. f_equal.
      destruct spans as [| bullet rest]; [reflexivity |].
      apply each_move_first.
    + eexists. split; [reflexivity |].
      apply each_move_kept. lia.
  - change (-1 >? 0) with false. change (-1 =? 1) with false. cbv iota.
    change ((activeSlot moved =? _centerIndex moved)
            && (_currentIndex moved + _centerIndex moved + 1
                <? _totalSlides moved))
      with (evictionDue (-1) moved).
    destruct (evictionDue (-1) moved).
    + eexists. split; [reflexivity |].
      unfold _insertBullet, prepend. cbn [Z.eqb].
      rewrite fmap_cons. f_equal.
      change (_bulletsLength moved) with (_bulletsLength this).
      rewrite <- Hlen.
      destruct spans as [| first rest] using rev_ind; [reflexivity |].
      clear IHrest. rewrite fmap_app, length_app. cbn [length fmap list_fmap].
      replace (length rest + 1 - 1)%nat with (length (uid <$> rest))
        by (rewrite length_fmap; lia).
      rewrite take_app_length.
      replace (len (rest ++ [first]) - 1) with (0 + len rest)
        by (unfold len; rewrite length_app; cbn [length]; lia).
      apply each_move_last.
    + eexists. split; [reflexivity |].
      apply each_move_kept. lia.
Qed.

End Steps.

Section Reachability.

Variables (found : option (list Bullet)) (total : Z) (opts : Options)
  (supply : nat).

Implicit Types (this : Pagination) (sign : Z).

Local Abbreviation reachable := (reachable found total opts supply).
Local Abbreviation wellFormed := (wellFormed found total opts supply).

Ltac split_wellFormed := split; [| split; [| split; [| split]]].

Lemma rewind_in_range index edge : 0 <= edge -> 0 <= rewind index edge <= edge.
Proof.
  intros Hedge. unfold rewind.
  destruct (Z.gtb_spec index edge); [lia |].
  destruct (Z.ltb_spec index 0); lia.
Qed.

Lemma render_inactive this :
  _isActive this = false \/ _totalSlides this < 2 ->
  render this = with_isActive this false.
Proof.
  intros Hoff. unfold render.
  destruct (_isActive this); cbn [negb orb]; [| reflexivity].
  destruct (Z.ltb_spec (_totalSlides this) 2); [reflexivity |].
  destruct Hoff; [discriminate | lia].
Qed.

Section AtLeastOneBullet.

Hypothesis Hbullets : 1 <= default 5 (bullets opts).

Lemma render_wellFormed :
  wellFormed (render (constructor found total opts supply)).
Proof.
  set (this := constructor found total opts supply).
  destruct (decide (_isActive this = false \/ _totalSlides this < 2))
    as [Hoff | Hon].
  - rewrite render_inactive by done.
    split_wellFormed; try reflexivity; cbn; discriminate.
  - assert (_isActive this = true /\ 2 <= total) as [Hactive Htotal].
    { change (_totalSlides this) with total in Hon.
      destruct (_isActive this); [split; [done | lia] | tauto]. }
    unfold render. rewrite Hactive. cbn [negb orb].
    destruct (Z.ltb_spec (_totalSlides this) 2) as [Hlt | _];
      [change (_totalSlides this) with total in Hlt; lia |].
    cbn [createContainer].
    set (indices := range 0 _).
    pose proof (render_forEach_uids this indices [] (S (doc_next this)))
      as [Huids Hnext].
    destruct (render_forEach this indices [] (S (doc_next this)))
      as [ref supply'].
    cbn [fst snd] in Huids, Hnext. cbn [fmap list_fmap app] in Huids.
    assert (length indices = Z.to_nat (_bulletsLength this)) as Hindices.
    { unfold indices, range. rewrite length_seqZ.
      change (_totalSlides this) with total.
      change (_bulletsLength this)
        with (Z.min total (default 5 (bullets opts))).
      lia. }
    split_wellFormed; try reflexivity.
    + intros _. split; [done |]. split; [cbn; lia |].
      exists ref. cbn [_ref with_ref doc_next].
      split; [reflexivity |]. split; [| split].
      * unfold len. rewrite <- (length_fmap uid), Huids, length_seq, Hindices.
        change (_bulletsLength (with_ref this (Some ref) supply'))
          with (Z.min total (default 5 (bullets opts))).
        change (_bulletsLength this)
          with (Z.min total (default 5 (bullets opts))).
        lia.
      * rewrite Huids. apply NoDup_seq.
      * rewrite Huids, Hnext. apply Forall_seq. intros; lia.
    + intros Hoff. change (_isActive this = false) in Hoff. congruence.
Qed.

Lemma goTo_wellFormed sign this this' :
  sign = 1 \/ sign = -1 ->
  wellFormed this -> _goTo sign this = Some this' -> wellFormed this'.
Proof.
  intros Hsign Hwf Hstep.
  destruct (_isActive this) eqn:Hactive.
  - destruct Hwf as (Htotal & Hlength & Hcenter & Hon & _).
    destruct (Hon Hactive)
      as (Htwo & Hcur & spans & Href & Hlen & Hdistinct & Hdrawn).
    destruct (goTo_active sign this spans Hactive Href Hlen Hsign)
      as (spans' & Hgo & Huids).
    rewrite Hgo in Hstep. injection Hstep as <-.
    assert (1 <= length spans)%nat as Hsome by (unfold len in Hlen; lia).
    rewrite Forall_forall in Hdrawn.
    split_wellFormed; try assumption.
    + intros _. split; [done |]. split.
      { cbn. rewrite Htotal.
        pose proof (rewind_in_range (_currentIndex this + sign) (total - 1)).
        lia. }
      exists spans'. cbn [_ref with_ref doc_next _bulletsLength].
      cbn [with_currentIndex _bulletsLength].
      split; [reflexivity |].
      unfold len in *. rewrite <- Hlen, <- (length_fmap uid spans'), Huids.
      destruct (evictionDue sign _).
      * destruct (sign =? 1).
        -- split; [| split].
           ++ rewrite length_app, length_drop, length_fmap. cbn [length]. lia.
           ++ apply NoDup_app. split; [| split].
              ** eapply sublist_NoDup; [done | apply sublist_drop].
              ** intros u Hin Hfresh. apply list_elem_of_singleton in Hfresh.
                 subst u.
                 apply elem_of_sublist with (l2 := uid <$> spans) in Hin;
                   [| apply sublist_drop].
                 apply Hdrawn in Hin. lia.
              ** apply NoDup_singleton.
           ++ apply Forall_app. split.
              ** apply Forall_drop, Forall_forall.
                 intros u Hin. apply Hdrawn in Hin. lia.
              ** apply Forall_singleton. lia.
        -- split; [| split].
           ++ cbn [length]. rewrite length_take, length_fmap. lia.
           ++ apply NoDup_cons. split.
              ** intros Hin.
                 apply elem_of_sublist with (l2 := uid <$> spans) in Hin;
                   [| apply sublist_take].
                 apply Hdrawn in Hin. lia.
              ** eapply sublist_NoDup; [done | apply sublist_take].
           ++ apply Forall_cons. split; [lia |].
              apply Forall_take, Forall_forall.
              intros u Hin. apply Hdrawn in Hin. lia.
      * split; [by rewrite length_fmap |]. split; [done |].
        by apply Forall_forall.
    + intros Hoff. change (_isActive this = false) in Hoff. congruence.
  - rewrite goTo_inactive in Hstep by done. by injection Hstep as <-.
Qed.

Lemma reachable_wellFormed this : reachable this -> wellFormed this.
Proof.
  induction 1 as [| this this' _ IH Hstep | this this' _ IH Hstep].
  - apply render_wellFormed.
  - apply (goTo_wellFormed 1 this); [by left | done | done].
  - apply (goTo_wellFormed (-1) this); [by right | done | done].
Qed.

Lemma evicted_from_kept index (before : list Bullet) (after : list nat) :
  (forall bullet, bullet ∈ before -> uid bullet ∈ after) ->
  evicted_from index before after = [].
Proof.
  revert index. induction before as [| bullet before IH]; intros index Hkept.
  - reflexivity.
  - cbn [evicted_from].
    destruct (decide (uid bullet ∈ after)) as [_ | Hout].
    + apply IH. intros other Hin. apply Hkept. by right.
    + exfalso. apply Hout, Hkept. by left.
Qed.

Lemma evicted_from_app index (front back : list Bullet) (after : list nat) :
  evicted_from index (front ++ back) after
  = evicted_from index front after
    ++ evicted_from (index + len front) back after.
Proof.
  revert index. induction front as [| bullet front IH]; intros index.
  - cbn. f_equal. unfold len. cbn. lia.
  - cbn [app evicted_from]. rewrite IH, <- app_assoc.
    replace (index + 1 + len front) with (index + len (bullet :: front))
      by (unfold len; cbn [length]; lia).
    reflexivity.
Qed.

(** C5 (amended): in a step of an active pagination configured with at
    least one bullet, with sign +1 or -1, the current index is first moved
    circularly; a
    bullet of the strip is then evicted exactly when, for the moved index,
    the active slot is the centre slot and [currentIndex - centerSlot > 0]
    (sign +1) or [currentIndex + centerSlot + 1 < totalItems] (sign -1);
    the evicted bullet is the one of slot 0 for sign +1 and of slot
    [bulletCount - 1] for sign -1, and no other bullet leaves the strip. *)
Theorem eviction_rule sign this :
  reachable this -> _isActive this = true -> sign = 1 \/ sign = -1 ->
  exists this',
    _goTo sign this = Some this'
    /\ _currentIndex this'
       = rewind (_currentIndex this + sign) (_totalSlides this - 1)
    /\ evictedSlots this this'
       = if evictionDue sign this' then [evictedSlot sign this'] else [].
Proof.
  intros Hreach Hactive Hsign.
  destruct (reachable_wellFormed this Hreach)
    as (Htotal & Hlength & Hcenter & Hon & _).
  destruct (Hon Hactive)
    as (Htwo & Hcur & spans & Href & Hlen & Hdistinct & Hdrawn).
  destruct (goTo_active sign this spans Hactive Href Hlen Hsign)
    as (spans' & Hgo & Huids).
  eexists. split; [exact Hgo |]. split; [reflexivity |].
  unfold evictedSlots, strip. cbn [_ref with_ref]. rewrite Href.
  cbn [default from_option id]. rewrite Huids.
  set (moved := with_currentIndex this _) in *.
  change (evictionDue sign (with_ref moved _ _)) with (evictionDue sign moved).
  rewrite Forall_forall in Hdrawn.
  assert (1 <= len spans) as Hsome by lia.
  destruct (evictionDue sign moved).
  - unfold evictedSlot. cbn [with_ref _bulletsLength].
    change (_bulletsLength moved) with (_bulletsLength this).
    destruct Hsign as [-> | ->].
    + change (1 =? 1) with true. cbv iota.
      destruct spans as [| first rest]; [unfold len in Hsome; cbn in Hsome; lia |].
      cbn [fmap list_fmap drop evicted_from]. rewrite drop_0.
      cbn [fmap list_fmap] in Hdistinct, Hdrawn.
      apply NoDup_cons in Hdistinct as [Hfirst _].
      destruct (decide (uid first ∈ (uid <$> rest) ++ [doc_next this]))
        as [Hin | _].
      * exfalso. apply elem_of_app in Hin as [Hin | Hin]; [done |].
        apply list_elem_of_singleton in Hin.
        specialize (Hdrawn (uid first) ltac:(by left)). lia.
      * rewrite evicted_from_kept; [reflexivity |].
        intros bullet Hin. apply elem_of_app. left.
        by apply list_elem_of_fmap_2.
    + change (-1 =? 1) with false. cbv iota.
      destruct spans as [| last front _] using rev_ind;
        [unfold len in Hsome; cbn in Hsome; lia |].
      rewrite fmap_app in Hdistinct, Hdrawn |- *.
      cbn [fmap list_fmap] in Hdistinct, Hdrawn |- *.
      rewrite length_app. cbn [length].
      replace (length front + 1 - 1)%nat with (length (uid <$> front))
        by (rewrite length_fmap; lia).
      rewrite take_app_length, evicted_from_app.
      rewrite evicted_from_kept.
      2:{ intros bullet Hin. right. by apply list_elem_of_fmap_2. }
      cbn [app evicted_from].
      apply NoDup_app in Hdistinct as (_ & Hlast & _).
      destruct (decide (uid last ∈ doc_next this :: (uid <$> front)))
        as [Hin | _].
      * exfalso. apply elem_of_cons in Hin as [Heq | Hin].
        -- specialize (Hdrawn (uid last)
                         ltac:(apply elem_of_app; right; by left)).
           lia.
        -- apply (Hlast (uid last)); [done | by left].
      * cbn [app]. f_equal. rewrite <- Hlen. unfold len.
        rewrite length_app. cbn [length]. lia.
  - apply evicted_from_kept. intros bullet Hin.
    by apply list_elem_of_fmap_2.
Qed.

Lemma rewind_next current items :
  0 <= current < items ->
  rewind (current + 1) (items - 1) = (current + 1) mod items.
Proof.
  intros Hcur. unfold rewind.
  destruct (Z.gtb_spec (current + 1) (items - 1)).
  - replace (current + 1) with items by lia. by rewrite Z.mod_same by lia.
  - destruct (Z.ltb_spec (current + 1) 0); [lia |].
    by rewrite Z.mod_small by lia.
Qed.

Lemma rewind_next_prev current items :
  0 <= current < items ->
  rewind (rewind (current + 1) (items - 1) + -1) (items - 1) = current.
Proof.
  intros Hcur. unfold rewind.
  destruct (Z.gtb_spec (current + 1) (items - 1)).
  - destruct (Z.gtb_spec (0 + -1) (items - 1)); [lia |].
    destruct (Z.ltb_spec (0 + -1) 0); lia.
  - destruct (Z.ltb_spec (current + 1) 0); [lia |].
    destruct (Z.gtb_spec (current + 1 + -1) (items - 1)); [lia |].
    destruct (Z.ltb_spec (current + 1 + -1) 0); lia.
Qed.

(** The real indices depend on the current index, the configuration and the
    number of slots only. *)
Lemma realIndices_stable this this' :
  _currentIndex this' = _currentIndex this ->
  _centerIndex this' = _centerIndex this ->
  _bulletsLength this' = _bulletsLength this ->
  _totalSlides this' = _totalSlides this ->
  len (strip this') = len (strip this) ->
  realIndices this' = realIndices this.
Proof.
  intros Hcur Hcenter Hlength Htotal Hslots.
  unfold realIndices, activeSlot.
  by rewrite Hcur, Hcenter, Hlength, Htotal, Hslots.
Qed.

(** When the mapped index is a slot of the strip, that slot represents the
    current index. *)
Lemma current_covered this :
  wellFormed this -> _isActive this = true ->
  _bulletsLength this mod 2 = 1 \/ _bulletsLength this >= _totalSlides this ->
  _currentIndex this ∈ realIndices this.
Proof.
  intros (Htotal & Hlength & Hcenter & Hon & _) Hactive Hshape.
  destruct (Hon Hactive) as (Htwo & Hcur & spans & Href & Hlen & _).
  assert (0 <= activeSlot this <= _bulletsLength this - 1) as Hslot.
  { unfold activeSlot. rewrite Hcenter.
    apply mapActiveIndex_in_strip; lia. }
  unfold realIndices, strip. rewrite Href. cbn [default from_option id].
  apply list_elem_of_fmap. exists (activeSlot this). split.
  - unfold getRealIndex. lia.
  - unfold range. apply elem_of_seqZ. lia.
Qed.

(** Going forward [n] times from an active state never fails, stays active
    and adds [n] to the current index modulo the number of items. *)
Lemma advance_times_next n this :
  wellFormed this -> _isActive this = true ->
  exists this_n,
    advance_times 1 n this = Some this_n
    /\ wellFormed this_n
    /\ _isActive this_n = true
    /\ _currentIndex this_n = (_currentIndex this + Z.of_nat n) mod total.
Proof.
  revert this. induction n as [| n IH]; intros this Hwf Hactive.
  - exists this. split; [reflexivity |]. split; [done |]. split; [done |].
    destruct Hwf as (_ & _ & _ & Hon & _).
    destruct (Hon Hactive) as (_ & Hcur & _).
    change (Z.of_nat 0) with 0.
    rewrite Z.add_0_r, Z.mod_small; [reflexivity | done].
  - pose proof Hwf as (Htotal & _ & _ & Hon & _).
    destruct (Hon Hactive) as (_ & Hcur & spans & Href & Hlen & _).
    destruct (goTo_active 1 this spans Hactive Href Hlen ltac:(by left))
      as (spans' & Hgo & _).
    pose proof (goTo_wellFormed 1 this _ ltac:(by left) Hwf Hgo) as Hwf'.
    destruct (IH _ Hwf' Hactive) as (this_n & Hrun & Hwf_n & Hactive_n & Hcur_n).
    exists this_n. cbn [advance_times]. rewrite Hgo.
    split; [done |]. split; [done |]. split; [done |].
    rewrite Hcur_n. cbn [_currentIndex with_ref with_currentIndex].
    rewrite Htotal, rewind_next by done.
    rewrite Zplus_mod_idemp_l. f_equal. lia.
Qed.

(** C7 (amended): in every reachable state of a pagination configured with
    at least one bullet, [advance(+1)] followed by [advance(-1)] succeeds and leaves
    the current index and the real indices represented by the strip as they
    were before the two calls. *)
Theorem next_prev_restores this :
  reachable this -> 2 <= total ->
  exists middle final,
    next this = Some middle
    /\ prev middle = Some final
    /\ _currentIndex final = _currentIndex this
    /\ realIndices final = realIndices this.
Proof.
  intros Hreach _.
  pose proof (reachable_wellFormed this Hreach) as Hwf.
  destruct (_isActive this) eqn:Hactive.
  - pose proof Hwf as (Htotal & Hlength & Hcenter & Hon & _).
    destruct (Hon Hactive) as (Htwo & Hcur & spans & Href & Hlen & _).
    destruct (goTo_active 1 this spans Hactive Href Hlen ltac:(by left))
      as (spans1 & Hgo1 & _).
    set (middle := with_ref _ (Some spans1) _) in Hgo1.
    pose proof (goTo_wellFormed 1 this middle ltac:(by left) Hwf Hgo1) as Hwf1.
    assert (_isActive middle = true) as Hactive1 by exact Hactive.
    pose proof Hwf1 as (_ & _ & _ & Hon1 & _).
    destruct (Hon1 Hactive1) as (_ & _ & spans1' & Href1 & Hlen1 & _).
    destruct (goTo_active (-1) middle spans1' Hactive1 Href1 Hlen1
                ltac:(by right))
      as (spans2 & Hgo2 & _).
    set (final := with_ref _ (Some spans2) _) in Hgo2.
    pose proof (goTo_wellFormed (-1) middle final ltac:(by right) Hwf1 Hgo2)
      as Hwf2.
    assert (_isActive final = true) as Hactive2 by exact Hactive.
    pose proof Hwf2 as (_ & _ & _ & Hon2 & _).
    destruct (Hon2 Hactive2) as (_ & _ & spans2' & Href2 & Hlen2 & _).
    assert (_currentIndex final = _currentIndex this) as Hback.
    { cbn [final middle _currentIndex with_ref with_currentIndex _totalSlides].
      apply rewind_next_prev. lia. }
    exists middle, final. split; [exact Hgo1 |]. split; [exact Hgo2 |].
    split; [exact Hback |].
    apply realIndices_stable; try reflexivity; [exact Hback |].
    unfold strip. rewrite Href2, Href. cbn [default from_option id].
    rewrite Hlen2, Hlen. reflexivity.
  - exists this, this. unfold next, prev.
    rewrite !goTo_inactive by done. done.
Qed.

End AtLeastOneBullet.

Lemma reachable_advance_times sign n this this' :
  sign = 1 \/ sign = -1 ->
  reachable this -> advance_times sign n this = Some this' -> reachable this'.
Proof.
  intros Hsign. revert this. induction n as [| n IH]; intros this Hreach Hrun.
  - injection Hrun as <-. done.
  - cbn [advance_times] in Hrun.
    destruct (_goTo sign this) as [middle |] eqn:Hstep; [| discriminate].
    apply (IH middle); [| done].
    destruct Hsign as [-> | ->].
    + by apply (reachable_next _ _ _ _ this).
    + by apply (reachable_prev _ _ _ _ this).
Qed.

(** C8: with fewer than two items the rendered pagination is inactive;
    [render] has created no element (the supply of the document is
    untouched and the pagination element is the one the container had, if
    any); every call of [_goTo], hence of [next] and [prev], returns the
    state unchanged, and so every state reached later is the rendered one. *)
Theorem inactive_below_two_items :
  total < 2 ->
  _isActive (render (constructor found total opts supply)) = false
  /\ _ref (render (constructor found total opts supply)) = found
  /\ doc_next (render (constructor found total opts supply)) = supply
  /\ (forall sign this,
        reachable this ->
        this = render (constructor found total opts supply)
        /\ _goTo sign this = Some this).
Proof.
  intros Hfew.
  assert (render (constructor found total opts supply)
          = with_isActive (constructor found total opts supply) false)
    as Hrender by (apply render_inactive; by right).
  rewrite Hrender. split; [reflexivity |]. split; [reflexivity |].
  split; [reflexivity |].
  assert (forall this, reachable this ->
            this = with_isActive (constructor found total opts supply) false)
    as Hsame.
  { induction 1 as [| this this' _ IH Hstep | this this' _ IH Hstep].
    - exact Hrender.
    - subst this. unfold next in Hstep.
      rewrite goTo_inactive in Hstep by reflexivity. by injection Hstep as <-.
    - subst this. unfold prev in Hstep.
      rewrite goTo_inactive in Hstep by reflexivity. by injection Hstep as <-. }
  intros sign this Hreach. rewrite (Hsame this Hreach).
  split; [reflexivity | by apply goTo_inactive].
Qed.

End Reachability.

(** * The steps on sample paginations *)

Lemma ten_slides_at_two_reachable :
  reachable None 10 defaults 0 ten_slides_at_two.
Proof.
  apply (reachable_advance_times None 10 defaults 0 1 2 ten_slides);
    [by left | apply reachable_render | vm_compute; reflexivity].
Qed.

Lemma eviction_rule_witness :
  exists this',
    _goTo 1 ten_slides_at_two = Some this'
    /\ _currentIndex this'
       = rewind (_currentIndex ten_slides_at_two + 1)
           (_totalSlides ten_slides_at_two - 1)
    /\ evictedSlots ten_slides_at_two this'
       = if evictionDue 1 this' then [evictedSlot 1 this'] else [].
Proof.
  apply (eviction_rule None 10 defaults 0).
  - simpl. lia.
  - apply (reachable_advance_times None 10 defaults 0 1 2 ten_slides);
      [by left | apply reachable_render | vm_compute; reflexivity].
  - reflexivity.
  - by left.
Defined.

(** Going forward from index 2 evicts the bullet of slot 0, going backward
    from index 7 would evict that of slot 4; here the forward case. *)
Example eviction_at_three :
  exists this',
    next ten_slides_at_two = Some this'
    /\ _currentIndex this' = 3
    /\ evictedSlots ten_slides_at_two this' = [0]
    /\ realIndices this' = [1; 2; 3; 4; 5].
Proof.
  eexists. split; [vm_compute; reflexivity |].
  split; [reflexivity |]. split; vm_compute; reflexivity.
Qed.

(** The claim C6 fails in two ways.  A pagination switched off by its caller
    is reachable with three items, has no strip, and after [advance(+1)] its
    real indices do not contain the current index.  With ten items and four
    bullets, nine steps forward lead to index 9 while the strip represents
    the indices 5 to 8. *)
Lemma strip_can_miss_current :
  (reachable None 3 switched_off 0 three_slides_switched_off
   /\ 2 <= _totalSlides three_slides_switched_off
   /\ exists this',
        advance_times 1 1 three_slides_switched_off = Some this'
        /\ _currentIndex this' ∉ realIndices this')
  /\ (reachable None 10 four_bullets 0 ten_slides_four_bullets
      /\ 2 <= _totalSlides ten_slides_four_bullets
      /\ exists this',
           advance_times 1 9 ten_slides_four_bullets = Some this'
           /\ _currentIndex this' ∉ realIndices this').
Proof.
  split.
  - split; [apply reachable_render |]. split; [simpl; lia |].
    eexists. split; [vm_compute; reflexivity |].
    match goal with
    | |- _ ∉ realIndices ?this =>
        assert (realIndices this = []) as -> by (vm_compute; reflexivity)
    end.
    apply not_elem_of_nil.
  - split; [apply reachable_render |]. split; [simpl; lia |].
    eexists. split; [vm_compute; reflexivity |].
    match goal with
    | |- _ ∉ realIndices ?this =>
        assert (realIndices this = [5; 6; 7; 8]) as ->
          by (vm_compute; reflexivity)
    end.
    cbn [_currentIndex]. intros Hin.
    repeat (apply elem_of_cons in Hin as [Heq | Hin]; [discriminate |]).
    by apply elem_of_nil in Hin.
Qed.

Lemma next_prev_restores_witness :
  exists middle final,
    next ten_slides_at_two = Some middle
    /\ prev middle = Some final
    /\ _currentIndex final = _currentIndex ten_slides_at_two
    /\ realIndices final = realIndices ten_slides_at_two.
Proof.
  apply (next_prev_restores None 10 defaults 0).
  - simpl. lia.
  - apply (reachable_advance_times None 10 defaults 0 1 2 ten_slides);
      [by left | apply reachable_render | vm_compute; reflexivity].
  - lia.
Defined.

Lemma inactive_below_two_items_witness :
  _isActive (render (constructor None 1 defaults 0)) = false
  /\ _ref (render (constructor None 1 defaults 0)) = None
  /\ doc_next (render (constructor None 1 defaults 0)) = 0%nat
  /\ (forall sign this,
        reachable None 1 defaults 0 this ->
        this = render (constructor None 1 defaults 0)
        /\ _goTo sign this = Some this).
Proof. apply (inactive_below_two_items None 1 defaults 0). lia. Defined.

(** * Further properties of the sliding window *)

Section SlidingWindowMore.

Implicit Types (source : list Z) (index start size : Z).

(** As long as the leftmost position is not below [-N], the window is the
    list of the items at the positions taken modulo [N]. *)
Lemma slidingWindow_wrapped source start size :
  0 <= start < len source -> 0 <= size -> - len source <= start - size ->
  slidingWindow source start size =
    (fun position => source !! Z.to_nat (position mod len source))
      <$> range (start - size) (start + size).
Proof.
  intros Hstart Hsize Hleft.
  rewrite slidingWindow_positions by lia.
  unfold range.
  replace (start - 1 - (start - size) + 1) with size by lia.
  replace (start + size - (start + 1) + 1) with size by lia.
  replace (start + size - (start - size) + 1) with (size + (1 + size)) by lia.
  rewrite (seqZ_app (start - size) size (1 + size)) by lia.
  rewrite (seqZ_app (start - size + size) 1 size) by lia.
  replace (start - size + size) with start by lia.
  rewrite (seqZ_cons start 1), (seqZ_nil _ (Z.pred 1)) by lia.
  rewrite !fmap_app. cbn [fmap list_fmap app].
  rewrite (Z.mod_small start) by lia.
  rewrite <- at_index_lookup by lia.
  f_equal; [| f_equal].
  - apply list_fmap_ext. intros i position Hi.
    apply lookup_seqZ in Hi. apply get_wraps; lia.
  - apply list_fmap_ext. intros i position Hi.
    apply lookup_seqZ in Hi. apply get_wraps; lia.
Qed.

Lemma lookup_modulo_is_Some source position :
  0 < len source ->
  is_Some (source !! Z.to_nat (position mod len source)).
Proof.
  intros Hpos. apply lookup_lt_is_Some.
  pose proof (Z.mod_pos_bound position (len source) Hpos).
  unfold len in *. lia.
Qed.

(** X1: for a valid start, every radius up to [start + N] gives a window without
    [undefined] entries. *)
Theorem slidingWindow_all_defined source start size :
  0 <= start < len source -> 0 <= size <= start + len source ->
  None ∉ slidingWindow source start size.
Proof.
  intros Hstart Hsize.
  rewrite slidingWindow_wrapped by lia.
  intros Hin. apply list_elem_of_fmap in Hin as (position & Hnone & _).
  destruct (lookup_modulo_is_Some source position ltac:(lia)) as [item Hitem].
  congruence.
Qed.

Lemma slidingWindow_all_defined_witness :
  None ∉ slidingWindow [1; 2; 3] 1 4.
Proof.
  apply (slidingWindow_all_defined [1; 2; 3] 1 4); unfold len; simpl; lia.
Defined.

(** X2: the entry in the middle of the window, at offset [size], is the read
    [source[start]], whatever the source and the start. *)
Theorem slidingWindow_center source start size :
  0 <= size ->
  slidingWindow source start size !! Z.to_nat size
  = Some (at_index source start).
Proof.
  intros Hsize. rewrite slidingWindow_positions by done.
  apply list_lookup_middle.
  rewrite length_fmap. unfold range. rewrite length_seqZ. lia.
Qed.

Lemma slidingWindow_center_witness :
  slidingWindow [1; 2; 3; 4; 5] 4 2 !! Z.to_nat 2
  = Some (at_index [1; 2; 3; 4; 5] 4).
Proof. apply (slidingWindow_center [1; 2; 3; 4; 5] 4 2). lia. Defined.

(** X3: the window of radius [size + 1] is the window of radius [size] with one
    more read at each end. *)
Theorem slidingWindow_grow source start size :
  0 <= size ->
  slidingWindow source start (size + 1)
  = get source (start - size - 1)
    :: slidingWindow source start size
    ++ [get source (start + size + 1)].
Proof.
  intros Hsize. unfold slidingWindow, range.
  replace (start - 1 - (start - (size + 1)) + 1) with (size + 1) by lia.
  replace (start + (size + 1) - (start + 1) + 1) with (size + 1) by lia.
  replace (start - 1 - (start - size) + 1) with size by lia.
  replace (start + size - (start + 1) + 1) with size by lia.
  rewrite (seqZ_cons (start - (size + 1))) by lia.
  rewrite (seqZ_app (start + 1) size 1) by lia.
  rewrite (seqZ_cons (start + 1 + size) 1), (seqZ_nil _ (Z.pred 1)) by lia.
  replace (Z.succ (start - (size + 1))) with (start - size) by lia.
  replace (Z.pred (size + 1)) with size by lia.
  replace (start - (size + 1)) with (start - size - 1) by lia.
  replace (start + 1 + size) with (start + size + 1) by lia.
  rewrite fmap_cons, fmap_app. cbn [fmap list_fmap].
  rewrite <- !app_assoc. reflexivity.
Qed.

Lemma slidingWindow_grow_witness :
  slidingWindow [1; 2; 3; 4; 5] 0 (1 + 1)
  = get [1; 2; 3; 4; 5] (0 - 1 - 1)
    :: slidingWindow [1; 2; 3; 4; 5] 0 1
    ++ [get [1; 2; 3; 4; 5] (0 + 1 + 1)].
Proof. apply (slidingWindow_grow [1; 2; 3; 4; 5] 0 1). lia. Defined.

Lemma get_empty index : get [] index = None.
Proof. reflexivity. Qed.

(** X4: over an empty source the window still has its [2 * size + 1] entries and
    all of them are [undefined]. *)
Theorem slidingWindow_empty_source start size :
  0 <= size ->
  slidingWindow [] start size = replicate (Z.to_nat (2 * size + 1)) None.
Proof.
  intros Hsize. unfold slidingWindow.
  assert (forall positions : list Z,
            get [] <$> positions = replicate (length positions) None)
    as Hreads.
  { induction positions as [| position positions IH]; [reflexivity |].
    cbn [fmap list_fmap length replicate]. by rewrite <- IH. }
  rewrite !Hreads. unfold range. rewrite !length_seqZ.
  assert (at_index (@nil Z) start = None) as ->.
  { unfold at_index. destruct (start <? 0); [reflexivity |].
    apply lookup_nil. }
  replace (Z.to_nat (2 * size + 1))
    with (Z.to_nat (start - 1 - (start - size) + 1)
          + (1 + Z.to_nat (start + size - (start + 1) + 1)))%nat by lia.
  rewrite replicate_add. reflexivity.
Qed.

Lemma slidingWindow_empty_source_witness :
  slidingWindow [] 0 1 = replicate (Z.to_nat (2 * 1 + 1)) None.
Proof. apply (slidingWindow_empty_source 0 1). lia. Defined.

(** X5: [get] never invents an item: what it returns, for any index at all, is
    an item of the source. *)
Theorem get_elem_of source index item :
  get source index = Some item -> item ∈ source.
Proof.
  unfold get. destruct (len source =? 0); [discriminate |].
  cbv zeta. unfold at_index.
  destruct (_ <? 0); [discriminate |].
  apply list_elem_of_lookup_2.
Qed.

Lemma get_elem_of_witness : 2 ∈ [1; 2; 3].
Proof. apply (get_elem_of [1; 2; 3] 7 2). reflexivity. Defined.

(** X6: to the right [get] is periodic: adding lengths to an index that is
    not below [-N] does not change the item read, as long as the sum is a
    safe integer. *)
Theorem get_periodic source index turns :
  0 < len source -> - len source <= index -> 0 <= turns ->
  index + turns * len source <= MAX_SAFE_INTEGER ->
  get source (index + turns * len source) = get source index.
Proof.
  intros Hpos Hlo Hturns _.
  rewrite !get_wraps by nia.
  by rewrite Z_mod_plus_full.
Qed.

Lemma get_periodic_witness :
  get [1; 2; 3] (-2 + 4 * len [1; 2; 3]) = get [1; 2; 3] (-2).
Proof.
  apply (get_periodic [1; 2; 3] (-2) 4);
    unfold len, MAX_SAFE_INTEGER; simpl; lia.
Defined.

(** X7: a window that is not wider than a source without repeated items has no
    repeated entries. *)
Theorem slidingWindow_NoDup source start size :
  NoDup source ->
  0 <= start < len source -> 0 <= size -> 2 * size + 1 <= len source ->
  NoDup (slidingWindow source start size).
Proof.
  intros Hsource Hstart Hsize Hwide.
  rewrite slidingWindow_wrapped by lia.
  apply NoDup_fmap_2_strong; [| apply NoDup_seqZ].
  intros p q Hp Hq Hsame.
  unfold range in Hp, Hq. apply elem_of_seqZ in Hp, Hq.
  destruct (lookup_modulo_is_Some source p ltac:(lia)) as [item Hitem].
  rewrite Hitem in Hsame. symmetry in Hsame.
  pose proof (NoDup_lookup _ _ _ _ Hsource Hitem Hsame) as Hmod.
  apply Z2Nat.inj in Hmod;
    [| apply Z.mod_pos_bound; lia | apply Z.mod_pos_bound; lia].
  pose proof (Z.div_mod p (len source) ltac:(lia)) as Hp'.
  pose proof (Z.div_mod q (len source) ltac:(lia)) as Hq'.
  rewrite Hmod in Hp'.
  assert (p - q = len source * (p / len source - q / len source)) as Hdiff
    by lia.
  assert (p / len source - q / len source = 0) as Hturns by nia.
  rewrite Hturns in Hdiff. lia.
Qed.

Lemma slidingWindow_NoDup_witness : NoDup (slidingWindow [1; 2; 3; 4; 5] 4 2).
Proof.
  apply (slidingWindow_NoDup [1; 2; 3; 4; 5] 4 2).
  - apply (NoDup_seqZ 1 5).
  - unfold len. simpl. lia.
  - lia.
  - unfold len. simpl. lia.
Defined.

Lemma range_lookup_self count position :
  0 <= position < count ->
  range 0 (count - 1) !! Z.to_nat position = Some position.
Proof.
  intros Hposition. unfold range. rewrite lookup_seqZ_lt by lia.
  f_equal. lia.
Qed.

(** X8: the indices the widget mounts: over the slide indices [0 .. N - 1], with
    the current index as start and a radius below [N], the window is the
    list of the positions [current - radius .. current + radius] reduced
    modulo [N]. *)
Theorem slidingWindow_of_indices count current size :
  0 <= current < count -> 0 <= size < count ->
  slidingWindow (range 0 (count - 1)) current size
  = (fun position => Some (position mod count))
      <$> range (current - size) (current + size).
Proof.
  intros Hcurrent Hsize.
  assert (len (range 0 (count - 1)) = count) as Hlen
    by (rewrite length_range; lia).
  rewrite slidingWindow_wrapped by lia.
  apply list_fmap_ext. intros i position _. rewrite Hlen.
  apply range_lookup_self. apply Z.mod_pos_bound. lia.
Qed.

Lemma slidingWindow_of_indices_witness :
  slidingWindow (range 0 (10 - 1)) 9 2
  = (fun position => Some (position mod 10)) <$> range (9 - 2) (9 + 2).
Proof. apply (slidingWindow_of_indices 10 9 2); lia. Defined.

End SlidingWindowMore.

(** * Further properties of the index mapping *)

Section IndexMappingMore.

Implicit Types (index center bullets total realIndex : Z).

(** X9: the active slot never moves backwards when the index grows, whatever
    the centre, the number of bullets and the number of items. *)
Theorem mapActiveIndex_monotone index index' center bullets total :
  index <= index' ->
  mapActiveIndex index center bullets total
  <= mapActiveIndex index' center bullets total.
Proof.
  intros Hle. unfold mapActiveIndex.
  destruct (bullets >=? total); lia.
Qed.

Lemma mapActiveIndex_monotone_witness :
  mapActiveIndex 3 2 5 10 <= mapActiveIndex 8 2 5 10.
Proof. apply (mapActiveIndex_monotone 3 8 2 5 10). lia. Defined.

(** X10: with the centre slot of the constructor, [floor(bullets / 2)], one step
    of the index moves the active slot by at most one slot, and never
    backwards. *)
Theorem mapActiveIndex_step index bullets total :
  0 <= mapActiveIndex (index + 1) (bullets / 2) bullets total
       - mapActiveIndex index (bullets / 2) bullets total
  <= 1.
Proof.
  unfold mapActiveIndex.
  destruct (Z.geb_spec bullets total); [lia |].
  pose proof (Z.div_mod bullets 2 ltac:(lia)).
  pose proof (Z.mod_pos_bound bullets 2 ltac:(lia)).
  lia.
Qed.

(** X11: the three regimes of the compression, for fewer bullets than items: up
    to the centre slot the index is its own slot; from the centre slot to
    [total - 1 - center] the active slot is the centre slot; from there on
    the active slot is the index less [total - 1 - 2 * center]. *)
Theorem mapActiveIndex_regimes index bullets total :
  0 <= bullets < total ->
  (index <= bullets / 2 ->
   mapActiveIndex index (bullets / 2) bullets total = index)
  /\ (bullets / 2 <= index <= total - 1 - bullets / 2 ->
      mapActiveIndex index (bullets / 2) bullets total = bullets / 2)
  /\ (total - 1 - bullets / 2 <= index ->
      mapActiveIndex index (bullets / 2) bullets total
      = index - (total - 1 - 2 * (bullets / 2))).
Proof.
  intros Hbullets. rewrite mapActiveIndex_compress by lia.
  pose proof (Z.div_mod bullets 2 ltac:(lia)).
  pose proof (Z.mod_pos_bound bullets 2 ltac:(lia)).
  split; [| split]; intros Hregime; lia.
Qed.

Lemma mapActiveIndex_regimes_witness :
  mapActiveIndex 1 (5 / 2) 5 10 = 1
  /\ mapActiveIndex 4 (5 / 2) 5 10 = 5 / 2
  /\ mapActiveIndex 9 (5 / 2) 5 10 = 9 - (10 - 1 - 2 * (5 / 2)).
Proof.
  destruct (mapActiveIndex_regimes 1 5 10 ltac:(lia)) as (Hhead & _ & _).
  destruct (mapActiveIndex_regimes 4 5 10 ltac:(lia)) as (_ & Hmiddle & _).
  destruct (mapActiveIndex_regimes 9 5 10 ltac:(lia)) as (_ & _ & Htail).
  change (5 / 2) with 2 in *.
  split; [apply Hhead; lia |].
  split; [apply Hmiddle; lia | apply Htail; lia].
Defined.

(** X12: with an odd number of bullets the mapping is symmetric under the
    reversal of both the items and the slots. *)
Theorem mapActiveIndex_mirror index bullets total :
  0 <= bullets < total -> bullets mod 2 = 1 ->
  mapActiveIndex (total - 1 - index) (bullets / 2) bullets total
  = bullets - 1 - mapActiveIndex index (bullets / 2) bullets total.
Proof.
  intros Hbullets Hodd. rewrite !mapActiveIndex_compress by lia.
  pose proof (Z.div_mod bullets 2 ltac:(lia)). lia.
Qed.

Lemma mapActiveIndex_mirror_witness :
  mapActiveIndex (10 - 1 - 8) (5 / 2) 5 10
  = 5 - 1 - mapActiveIndex 8 (5 / 2) 5 10.
Proof. apply (mapActiveIndex_mirror 8 5 10); [lia | reflexivity]. Defined.

End IndexMappingMore.

(** * The attributes of the bullets *)

Section BulletAttributes.

Variables (this : Pagination) (activeIndex sign : Z).

Local Abbreviation move := (bulletCallback this activeIndex sign).
Local Abbreviation moved := (movedBullet this activeIndex sign).

Lemma move_kept_bullet removeBulletIndex bullet index :
  removeBulletIndex <> index ->
  move removeBulletIndex bullet index
  = Some (moved removeBulletIndex bullet index).
Proof.
  intros Hne. unfold bulletCallback, _handleBulletMovement, movedBullet.
  destruct (Z.eqb_spec removeBulletIndex index); [done | reflexivity].
Qed.

(** When no visited slot is removed, the element of slot [slot] is the
    moved form of the element that was there. *)
Lemma each_move_kept_lookup removeBulletIndex spans index (slot : nat) :
  removeBulletIndex < index \/ index + len spans <= removeBulletIndex ->
  each (move removeBulletIndex) spans index !! slot
  = (fun bullet => moved removeBulletIndex bullet (index + Z.of_nat slot))
      <$> spans !! slot.
Proof.
  revert index slot.
  induction spans as [| bullet spans IH]; intros index slot Hout.
  - reflexivity.
  - unfold len in Hout. cbn [length] in Hout. cbn [each].
    rewrite move_kept_bullet by lia.
    destruct slot as [| slot].
    + cbn. by rewrite Z.add_0_r.
    + cbn [lookup list_lookup]. rewrite IH by (unfold len; lia).
      replace (index + 1 + Z.of_nat slot) with (index + Z.of_nat (S slot))
        by lia.
      reflexivity.
Qed.

Lemma each_move_first_lookup bullet spans index (slot : nat) :
  each (move index) (bullet :: spans) index !! slot
  = (fun kept => moved index kept (index + 1 + Z.of_nat slot))
      <$> spans !! slot.
Proof.
  cbn [each]. rewrite move_removed. apply each_move_kept_lookup. lia.
Qed.

Lemma each_move_last_eq spans bullet index :
  each (move (index + len spans)) (spans ++ [bullet]) index
  = each (move (index + len spans)) spans index.
Proof.
  rewrite each_app. cbn [each]. rewrite move_removed. apply app_nil_r.
Qed.

End BulletAttributes.

Section StepAttributes.

Implicit Types (this : Pagination) (spans : list Bullet) (sign : Z).

(** The bullet that [_goTo] inserts when it evicts. *)
Lemma inserted_bullet this index isEdge supply :
  _renderBullet this index None (Some isEdge) supply
  = (mkBullet supply false isEdge (Some (index * _diameter this)), S supply).
Proof.
  unfold _renderBullet, createElement, _setAttributes, addOrRemoveClass, truthy.
  cbn. by destruct isEdge.
Qed.

(** The strip after a step of an active pagination. *)
Lemma goTo_active_strip sign this spans :
  _isActive this = true ->
  _ref this = Some spans ->
  sign = 1 \/ sign = -1 ->
  let moved :=
    with_currentIndex this
      (rewind (_currentIndex this + sign) (_totalSlides this - 1)) in
  let removeBulletIndex :=
    if evictionDue sign moved then evictedSlot sign moved else -1 in
  let insertBulletIndex := -1 + _bulletsLength this - removeBulletIndex in
  let kept :=
    each (bulletCallback moved (activeSlot moved) sign removeBulletIndex)
      spans 0 in
  let inserted :=
    mkBullet (doc_next this) false (edgeOf moved insertBulletIndex)
      (Some (insertBulletIndex * _diameter this)) in
  _goTo sign this
  = Some (if evictionDue sign moved then
            with_ref moved
              (Some (if sign =? 1 then kept ++ [inserted]
                     else inserted :: kept))
              (S (doc_next this))
          else with_ref moved (Some kept) (doc_next this)).
Proof.
  intros Hon Href Hsign moved.
  unfold _goTo. rewrite Hon. cbn [negb].
  fold moved.
  change (_ref moved) with (_ref this). rewrite Href.
  change (mapActiveIndex (_currentIndex moved) (_centerIndex moved)
            (_bulletsLength moved) (_totalSlides moved))
    with (activeSlot moved).
  unfold evictedSlot.
  change (_bulletsLength moved) with (_bulletsLength this).
  change (doc_next moved) with (doc_next this).
  destruct Hsign as [-> | ->].
  - change (1 >? 0) with true. change (1 =? 1) with true. cbv iota.
    change ((activeSlot moved =? _centerIndex moved)
            && (_currentIndex moved - _centerIndex moved >? 0))
      with (evictionDue 1 moved).
    destruct (evictionDue 1 moved); [| reflexivity].
    cbv zeta. rewrite inserted_bullet. reflexivity.
  - change (-1 >? 0) with false. change (-1 =? 1) with false. cbv iota.
    change ((activeSlot moved =? _centerIndex moved)
            && (_currentIndex moved + _centerIndex moved + 1
                <? _totalSlides moved))
      with (evictionDue (-1) moved).
    destruct (evictionDue (-1) moved); [| reflexivity].
    cbv zeta. rewrite inserted_bullet. reflexivity.
Qed.

(** Every bullet of the strip after a step is of one of three kinds: moved
    in a step without eviction, moved in a step with eviction, or inserted
    by the step. *)
Lemma goTo_slots sign this spans this' :
  _isActive this = true ->
  _ref this = Some spans ->
  len spans = _bulletsLength this ->
  1 <= _bulletsLength this ->
  sign = 1 \/ sign = -1 ->
  _goTo sign this = Some this' ->
  let moved :=
    with_currentIndex this
      (rewind (_currentIndex this + sign) (_totalSlides this - 1)) in
  forall (slot : nat) (bullet : Bullet),
    strip this' !! slot = Some bullet ->
    (evictionDue sign moved = false
     /\ exists old,
          spans !! slot = Some old
          /\ bullet
             = movedBullet moved (activeSlot moved) sign (-1) old
                 (Z.of_nat slot))
    \/ (evictionDue sign moved = true
        /\ exists old index,
             bullet
             = movedBullet moved (activeSlot moved) sign
                 (evictedSlot sign moved) old index
             /\ index - sign = Z.of_nat slot
             /\ 0 <= evictedSlot sign moved)
    \/ (evictionDue sign moved = true
        /\ bullet
           = mkBullet (doc_next this) false (edgeOf moved (Z.of_nat slot))
               (Some (Z.of_nat slot * _diameter this))
        /\ Z.of_nat slot = (if sign =? 1 then _bulletsLength this - 1 else 0)).
Proof.
  intros Hon Href Hlen Hsome Hsign Hgo moved slot bullet Hslot.
  rewrite (goTo_active_strip sign this spans Hon Href Hsign) in Hgo.
  fold moved in Hgo. injection Hgo as <-.
  destruct (evictionDue sign moved) eqn:Hdue.
  - right. unfold strip in Hslot. cbn [_ref with_ref default from_option id] in Hslot.
    unfold evictedSlot in *.
    change (_bulletsLength moved) with (_bulletsLength this) in *.
    destruct Hsign as [-> | ->].
    + change (1 =? 1) with true in *. cbv iota in Hslot |- *.
      destruct spans as [| first rest];
        [unfold len in Hlen; cbn in Hlen; lia |].
      assert (length (each (bulletCallback moved (activeSlot moved) 1 0)
                        (first :: rest) 0) = length rest) as Hkept.
      { rewrite <- (length_fmap uid), each_move_first. apply length_fmap. }
      apply lookup_app_Some in Hslot as [Hslot | [Hge Hslot]].
      * left. split; [reflexivity |].
        rewrite each_move_first_lookup in Hslot.
        destruct (rest !! slot) as [old |]; [| discriminate].
        injection Hslot as <-. exists old, (0 + 1 + Z.of_nat slot).
        split; [reflexivity | lia].
      * right. split; [reflexivity |].
        apply list_lookup_singleton_Some in Hslot as [Hzero <-].
        assert (Z.of_nat slot = _bulletsLength this - 1) as Hlast.
        { rewrite <- Hlen. unfold len. cbn [length]. lia. }
        split; [| exact Hlast].
        rewrite Hlast. f_equal; f_equal; lia.
    + change (-1 =? 1) with false in *. cbv iota in Hslot |- *.
      destruct spans as [| last front _] using rev_ind;
        [unfold len in Hlen; cbn in Hlen; lia |].
      assert (_bulletsLength this - 1 = 0 + len front) as Hremoved.
      { rewrite <- Hlen. unfold len. rewrite length_app. cbn [length]. lia. }
      rewrite Hremoved in Hslot |- *.
      rewrite each_move_last_eq in Hslot.
      apply lookup_cons_Some in Hslot as [[-> <-] | [Hge Hslot]].
      * right. split; [reflexivity |]. split; [| reflexivity].
        f_equal; f_equal; lia.
      * left. split; [reflexivity |].
        rewrite each_move_kept_lookup in Hslot by lia.
        destruct (front !! (slot - 1)%nat) as [old |]; [| discriminate].
        injection Hslot as <-. exists old, (0 + Z.of_nat (slot - 1)).
        split; [reflexivity |]. unfold len. lia.
  - left. split; [reflexivity |].
    unfold strip in Hslot. cbn [_ref with_ref default from_option id] in Hslot.
    rewrite each_move_kept_lookup in Hslot by lia.
    destruct (spans !! slot) as [old |]; [| discriminate].
    injection Hslot as <-. exists old. split; [reflexivity |].
    by rewrite Z.add_0_l.
Qed.

End StepAttributes.

Section RenderedStrip.

Implicit Types (this : Pagination) (spans : list Bullet) (sign : Z).

Lemma rendered_bullet this index isActive isEdge supply :
  _renderBullet this index (Some isActive) (Some isEdge) supply
  = (mkBullet supply isActive isEdge (Some (index * _diameter this)),
     S supply).
Proof.
  unfold _renderBullet, createElement, _setAttributes, addOrRemoveClass, truthy.
  cbn. by destruct isActive, isEdge.
Qed.

(** The bullets that the [forEach] of [render] appends, one per index. *)
Lemma render_forEach_bullets this indices ref supply :
  (render_forEach this indices ref supply).1
  = ref
    ++ imap (fun (k : nat) index =>
               mkBullet (supply + k) (index =? _currentIndex this)
                 (isEdgeBullet index index (_bulletsLength this)
                    (_totalSlides this))
                 (Some (index * _diameter this)))
         indices.
Proof.
  revert ref supply. induction indices as [| index indices IH];
    intros ref supply.
  - cbn. by rewrite app_nil_r.
  - cbn [render_forEach]. rewrite rendered_bullet, IH.
    unfold append. rewrite <- app_assoc, imap_cons. cbn [app].
    rewrite Nat.add_0_r. do 2 f_equal.
    apply imap_ext. intros k other _. cbn. f_equal. lia.
Qed.

Lemma mapActiveIndex_start bullets total :
  0 <= bullets -> mapActiveIndex 0 (bullets / 2) bullets total = 0.
Proof.
  intros Hbullets. unfold mapActiveIndex.
  destruct (Z.geb_spec bullets total); [reflexivity |].
  pose proof (Z.div_mod bullets 2 ltac:(lia)).
  pose proof (Z.mod_pos_bound bullets 2 ltac:(lia)).
  lia.
Qed.

Variables (found : option (list Bullet)) (total : Z) (opts : Options)
  (supply : nat).

Hypothesis Hactive : default true (isActive opts) = true.
Hypothesis Htotal : 2 <= total.
Hypothesis Hbullets : 1 <= default 5 (bullets opts).

Local Abbreviation bulletCount := (Z.min total (default 5 (bullets opts))).

(** The strip of a rendered active pagination, slot by slot. *)
Lemma render_lookup (slot : nat) :
  strip (render (constructor found total opts supply)) !! slot
  = if decide (Z.of_nat slot < bulletCount) then
      Some (mkBullet (S supply + slot) (Z.of_nat slot =? 0)
              (isEdgeBullet (Z.of_nat slot) (Z.of_nat slot) bulletCount total)
              (Some (Z.of_nat slot * default 16 (diameter opts))))
    else None.
Proof.
  set (this := constructor found total opts supply).
  unfold render. change (_isActive this) with (default true (isActive opts)).
  rewrite Hactive. cbn [negb orb].
  change (_totalSlides this) with total.
  destruct (Z.ltb_spec total 2); [lia |].
  cbn [createContainer].
  pose proof (render_forEach_bullets this
                (range 0 (Z.min (_bulletsLength this) total - 1)) []
                (S (doc_next this))) as Hbullets'.
  destruct (render_forEach this _ [] (S (doc_next this))) as [ref supply'].
  cbn [fst] in Hbullets'. unfold strip. cbn [_ref with_ref default from_option id].
  rewrite Hbullets'. cbn [app]. rewrite list_lookup_imap.
  change (_bulletsLength this) with bulletCount.
  change (_currentIndex this) with 0.
  change (_diameter this) with (default 16 (diameter opts)).
  change (doc_next this) with supply.
  unfold range.
  replace (Z.min bulletCount total - 1 - 0 + 1) with bulletCount by lia.
  destruct (decide (Z.of_nat slot < bulletCount)) as [Hin | Hout].
  - rewrite lookup_seqZ_lt by done. cbn. reflexivity.
  - rewrite lookup_seqZ_ge by lia. reflexivity.
Qed.

(** X13: what [render] shows, when the pagination is active and there are two
    slides or more: whatever element the container held, the strip is made
    of [min(total, bullets)] new bullets; the bullet of slot 0 is the only
    active one, the only bullet that can be an edge is the last one, when
    there are more slides than bullets, and each bullet is placed at its
    slot times the diameter. *)
Theorem render_bullets :
  _isActive (render (constructor found total opts supply)) = true
  /\ len (strip (render (constructor found total opts supply))) = bulletCount
  /\ forall (slot : nat) (bullet : Bullet),
       strip (render (constructor found total opts supply)) !! slot
       = Some bullet ->
       uid bullet = (S supply + slot)%nat
       /\ activeClass bullet = (Z.of_nat slot =? 0)
       /\ (edgeClass bullet = true <->
           Z.of_nat slot <> 0
           /\ Z.of_nat slot = bulletCount - 1
           /\ bulletCount < total)
       /\ translateX bullet
          = Some (Z.of_nat slot * default 16 (diameter opts)).
Proof.
  split; [| split].
  - unfold render.
    change (_isActive (constructor found total opts supply))
      with (default true (isActive opts)).
    rewrite Hactive. cbn [negb orb].
    change (_totalSlides (constructor found total opts supply)) with total.
    destruct (Z.ltb_spec total 2); [lia |].
    cbn [createContainer].
    destruct (render_forEach _ _ _ _) as [ref supply']. exact Hactive.
  - assert (forall slots : list Bullet,
              (forall slot : nat,
                 is_Some (slots !! slot) <-> Z.of_nat slot < bulletCount) ->
              len slots = bulletCount) as Hcount.
    { intros slots Hslots. unfold len.
      destruct (Z.lt_ge_cases (Z.of_nat (length slots)) bulletCount) as [Hlt | Hge].
      - pose proof (proj2 (Hslots (length slots)) Hlt) as Hsome.
        apply lookup_lt_is_Some in Hsome. lia.
      - destruct (length slots) as [| n] eqn:Hlength; [lia |].
        assert (is_Some (slots !! n)) as Hsome
          by (apply lookup_lt_is_Some; lia).
        apply Hslots in Hsome. lia. }
    apply Hcount. intros slot. rewrite render_lookup.
    destruct (decide (Z.of_nat slot < bulletCount)).
    + split; [done | by eexists].
    + split; [intros [? ?]; discriminate | done].
  - intros slot bullet Hslot. rewrite render_lookup in Hslot.
    destruct (decide (Z.of_nat slot < bulletCount)); [| discriminate].
    injection Hslot as <-. cbn [uid activeClass edgeClass translateX].
    split; [reflexivity |]. split; [reflexivity |]. split; [| reflexivity].
    unfold isEdgeBullet.
    destruct (Z.eqb_spec (Z.of_nat slot) 0) as [-> | Hne].
    + rewrite Z.eqb_refl. cbn. split; [discriminate | intros [? _]; done].
    + destruct (Z.eqb_spec (Z.of_nat slot) (bulletCount - 1)).
      * rewrite Z.ltb_lt. split; [intros; lia | intros (_ & _ & ?); lia].
      * split; [discriminate | intros (_ & ? & _); done].
Qed.

End RenderedStrip.

Section AttributeInvariants.

Variables (found : option (list Bullet)) (total : Z) (opts : Options)
  (supply : nat).

Implicit Types (this : Pagination) (sign : Z).

Local Abbreviation reachable := (reachable found total opts supply).
Local Abbreviation wellFormed := (wellFormed found total opts supply).

Lemma render_active_inv :
  _isActive (render (constructor found total opts supply)) = true ->
  default true (isActive opts) = true /\ 2 <= total.
Proof.
  intros Hon.
  destruct (decide (default true (isActive opts) = false \/ total < 2))
    as [Hoff | Hok].
  - rewrite render_inactive in Hon by exact Hoff. discriminate.
  - destruct (default true (isActive opts)); [split; [done | lia] | tauto].
Qed.

Lemma evictionDue_center sign this :
  evictionDue sign this = true -> activeSlot this = _centerIndex this.
Proof.
  unfold evictionDue. intros Hdue.
  apply andb_true_iff in Hdue as [Hcenter _]. by apply Z.eqb_eq.
Qed.

(** When every item has its bullet nothing is ever evicted. *)
Lemma evictionDue_all_shown sign this :
  sign = 1 \/ sign = -1 ->
  _centerIndex this = _bulletsLength this / 2 ->
  _bulletsLength this >= _totalSlides this ->
  evictionDue sign this = false.
Proof.
  intros Hsign Hcenter Hall.
  destruct (evictionDue sign this) eqn:Hdue; [exfalso | reflexivity].
  pose proof (evictionDue_center sign this Hdue) as Hslot.
  unfold evictionDue in Hdue. apply andb_true_iff in Hdue as [_ Hover].
  unfold activeSlot, mapActiveIndex in Hslot.
  destruct (Z.geb_spec (_bulletsLength this) (_totalSlides this)); [| lia].
  pose proof (Z.div_mod (_bulletsLength this) 2 ltac:(lia)).
  pose proof (Z.mod_pos_bound (_bulletsLength this) 2 ltac:(lia)).
  destruct Hsign as [-> | ->].
  - change (1 =? 1) with true in Hover. cbv iota in Hover. lia.
  - change (-1 =? 1) with false in Hover. cbv iota in Hover. lia.
Qed.

Lemma movedBullet_plain this activeIndex sign old index :
  movedBullet this activeIndex sign (-1) old index
  = mkBullet (uid old) (index =? activeIndex)
      (isEdgeBullet index
         (getRealIndex index (_currentIndex this) activeIndex)
         (_bulletsLength this) (_totalSlides this))
      (translateX old).
Proof.
  unfold movedBullet. change (-1 >? -1) with false. cbv iota zeta.
  rewrite Z.sub_0_r.
  unfold _setAttributes, addOrRemoveClass, truthy. cbn [default from_option id].
  by rewrite !negb_involutive.
Qed.

Lemma movedBullet_shifted this activeIndex sign removeBulletIndex old index :
  0 <= removeBulletIndex ->
  movedBullet this activeIndex sign removeBulletIndex old index
  = mkBullet (uid old) (index - sign =? activeIndex)
      (isEdgeBullet (index - sign)
         (getRealIndex (index - sign) (_currentIndex this) activeIndex)
         (_bulletsLength this) (_totalSlides this))
      (Some ((index - sign) * _diameter this)).
Proof.
  intros Hremoved. unfold movedBullet.
  destruct (Z.gtb_spec removeBulletIndex (-1)); [| lia]. cbv zeta.
  unfold _setAttributes, addOrRemoveClass, truthy. cbn [default from_option id].
  by rewrite !negb_involutive.
Qed.

Section AtLeastOneBullet.

Hypothesis Hbullets : 1 <= default 5 (bullets opts).

Lemma render_attributesAgree :
  _isActive (render (constructor found total opts supply)) = true ->
  attributesAgree (render (constructor found total opts supply))
  /\ activeAgrees (render (constructor found total opts supply)).
Proof.
  intros Hon. destruct (render_active_inv Hon) as [Hactive Htotal].
  pose proof (render_wellFormed found total opts supply Hbullets)
    as (Htotal' & Hlength & Hcenter & Hwf & _).
  destruct (Hwf Hon) as (_ & _ & spans & Href & _).
  set (this := render (constructor found total opts supply)) in *.
  assert (_currentIndex this = 0) as Hcur.
  { unfold this, render.
    destruct (negb _ || _); [reflexivity |]. cbn [createContainer].
    destruct (render_forEach _ _ _ _). reflexivity. }
  assert (_diameter this = default 16 (diameter opts)) as Hdiameter.
  { unfold this, render.
    destruct (negb _ || _); [reflexivity |]. cbn [createContainer].
    destruct (render_forEach _ _ _ _). reflexivity. }
  assert (activeSlot this = 0) as Hslot.
  { unfold activeSlot. rewrite Hcur, Hcenter.
    apply mapActiveIndex_start. lia. }
  split.
  - intros slot bullet Hbullet. unfold this in Hbullet.
    rewrite (render_lookup found total opts supply Hactive Htotal) in Hbullet.
    destruct (decide _); [| discriminate]. injection Hbullet as <-.
    cbn [edgeClass translateX activeClass].
    unfold edgeOf, getRealIndex. rewrite Hslot, Hcur, Hlength, Htotal', Hdiameter.
    rewrite Z.sub_0_r, Z.add_0_l.
    split; [reflexivity |]. split; [reflexivity |].
    intros Hzero. by apply Z.eqb_eq in Hzero.
  - intros slot bullet Hbullet. unfold this in Hbullet.
    rewrite (render_lookup found total opts supply Hactive Htotal) in Hbullet.
    destruct (decide _); [| discriminate]. injection Hbullet as <-.
    cbn [activeClass]. by rewrite Hslot.
Qed.

Lemma goTo_attributesAgree sign this this' :
  sign = 1 \/ sign = -1 ->
  wellFormed this -> _isActive this = true ->
  attributesAgree this ->
  _goTo sign this = Some this' ->
  attributesAgree this'.
Proof.
  intros Hsign Hwf Hon Hagree Hgo.
  destruct Hwf as (Htotal & Hlength & Hcenter & Hwf & _).
  destruct (Hwf Hon) as (Htwo & Hcur & spans & Href & Hlen & _).
  pose proof (goTo_slots sign this spans this' Hon Href Hlen ltac:(lia)
                Hsign Hgo) as Hslots.
  destruct (goTo_active sign this spans Hon Href Hlen Hsign)
    as (spans' & Hgo' & _).
  rewrite Hgo' in Hgo. injection Hgo as <-. clear Hgo'.
  set (moved := with_currentIndex this _) in *.
  intros slot bullet Hbullet.
  change (edgeOf (with_ref moved _ _)) with (edgeOf moved).
  change (activeSlot (with_ref moved _ _)) with (activeSlot moved).
  change (_diameter (with_ref moved _ _)) with (_diameter this).
  destruct (Hslots slot bullet Hbullet)
    as [(_ & old & Hold & ->)
       | [(_ & old & index & -> & Hindex & Hremoved) | (_ & -> & _)]].
  - rewrite movedBullet_plain. cbn [edgeClass translateX activeClass].
    split; [reflexivity |]. split.
    + unfold attributesAgree, strip in Hagree. rewrite Href in Hagree.
      by destruct (Hagree slot old Hold) as (_ & -> & _).
    + intros Hactive. by apply Z.eqb_eq in Hactive.
  - rewrite movedBullet_shifted by done. rewrite Hindex.
    cbn [edgeClass translateX activeClass].
    split; [reflexivity |]. split; [reflexivity |].
    intros Hactive. by apply Z.eqb_eq in Hactive.
  - cbn [edgeClass translateX activeClass].
    split; [reflexivity |]. split; [reflexivity | discriminate].
Qed.

Lemma goTo_activeAgrees sign this this' :
  sign = 1 \/ sign = -1 ->
  wellFormed this -> _isActive this = true ->
  3 <= _bulletsLength this \/ _bulletsLength this >= _totalSlides this ->
  _goTo sign this = Some this' ->
  activeAgrees this'.
Proof.
  intros Hsign Hwf Hon Hshape Hgo.
  destruct Hwf as (Htotal & Hlength & Hcenter & Hwf & _).
  destruct (Hwf Hon) as (Htwo & Hcur & spans & Href & Hlen & _).
  pose proof (goTo_slots sign this spans this' Hon Href Hlen ltac:(lia)
                Hsign Hgo) as Hslots.
  destruct (goTo_active sign this spans Hon Href Hlen Hsign)
    as (spans' & Hgo' & _).
  rewrite Hgo' in Hgo. injection Hgo as <-. clear Hgo'.
  set (moved := with_currentIndex this _) in *.
  intros slot bullet Hbullet.
  change (activeSlot (with_ref moved _ _)) with (activeSlot moved).
  destruct (Hslots slot bullet Hbullet)
    as [(_ & old & Hold & ->)
       | [(_ & old & index & -> & Hindex & Hremoved)
         | (Hdue & -> & Hslot)]].
  - by rewrite movedBullet_plain.
  - rewrite movedBullet_shifted by done. by rewrite Hindex.
  - cbn [activeClass]. symmetry. apply Z.eqb_neq.
    destruct Hshape as [Hthree | Hall].
    + rewrite (evictionDue_center sign moved Hdue).
      change (_centerIndex moved) with (_centerIndex this).
      rewrite Hcenter, Hslot.
      pose proof (Z.div_mod (_bulletsLength this) 2 ltac:(lia)).
      pose proof (Z.mod_pos_bound (_bulletsLength this) 2 ltac:(lia)).
      destruct (sign =? 1); lia.
    + rewrite (evictionDue_all_shown sign moved Hsign Hcenter Hall) in Hdue.
      discriminate.
Qed.

Lemma reachable_attributesAgree this :
  reachable this -> _isActive this = true -> attributesAgree this.
Proof.
  induction 1 as [| this this' Hreach IH Hstep | this this' Hreach IH Hstep];
    intros Hon.
  - by apply render_attributesAgree.
  - pose proof (reachable_wellFormed _ _ _ _ Hbullets this Hreach) as Hwf.
    destruct (_isActive this) eqn:Hprev.
    + apply (goTo_attributesAgree 1 this); auto.
    + unfold next in Hstep. rewrite goTo_inactive in Hstep by done.
      injection Hstep as <-. congruence.
  - pose proof (reachable_wellFormed _ _ _ _ Hbullets this Hreach) as Hwf.
    destruct (_isActive this) eqn:Hprev.
    + apply (goTo_attributesAgree (-1) this); auto.
    + unfold prev in Hstep. rewrite goTo_inactive in Hstep by done.
      injection Hstep as <-. congruence.
Qed.

Lemma reachable_activeAgrees this :
  reachable this -> _isActive this = true ->
  3 <= _bulletsLength this \/ _bulletsLength this >= _totalSlides this ->
  activeAgrees this.
Proof.
  intros Hreach Hon Hshape. destruct Hreach as [| this this' Hreach Hstep
                                                | this this' Hreach Hstep].
  - by apply render_attributesAgree.
  - pose proof (reachable_wellFormed _ _ _ _ Hbullets this Hreach) as Hwf.
    pose proof (reachable_wellFormed _ _ _ _ Hbullets this'
                  (reachable_next _ _ _ _ this this' Hreach Hstep)) as Hwf'.
    destruct (_isActive this) eqn:Hprev.
    + apply (goTo_activeAgrees 1 this); auto.
      destruct Hwf as (-> & -> & _). by destruct Hwf' as (<- & <- & _).
    + unfold next in Hstep. rewrite goTo_inactive in Hstep by done.
      injection Hstep as <-. congruence.
  - pose proof (reachable_wellFormed _ _ _ _ Hbullets this Hreach) as Hwf.
    pose proof (reachable_wellFormed _ _ _ _ Hbullets this'
                  (reachable_prev _ _ _ _ this this' Hreach Hstep)) as Hwf'.
    destruct (_isActive this) eqn:Hprev.
    + apply (goTo_activeAgrees (-1) this); auto.
      destruct Hwf as (-> & -> & _). by destruct Hwf' as (<- & <- & _).
    + unfold prev in Hstep. rewrite goTo_inactive in Hstep by done.
      injection Hstep as <-. congruence.
Qed.

End AtLeastOneBullet.

End AttributeInvariants.

(** * Invariants of the bullet strip *)

Section StripInvariants.

Variables (found : option (list Bullet)) (total : Z) (opts : Options)
  (supply : nat).

Implicit Types (this : Pagination) (sign : Z).

Local Abbreviation reachable := (reachable found total opts supply).
Local Abbreviation wellFormed := (wellFormed found total opts supply).

Lemma goTo_keeps_element sign this this' :
  _isActive this = true -> _goTo sign this = Some this' ->
  _isActive this' = true /\ is_Some (_ref this').
Proof.
  intros Hon. unfold _goTo. rewrite Hon. cbn [negb].
  cbn [_ref with_currentIndex].
  destruct (_ref this) as [spans |]; [| discriminate].
  destruct (_ && _).
  - rewrite inserted_bullet. intros [= <-]. split; [done | by eexists].
  - intros [= <-]. split; [done | by eexists].
Qed.

Lemma reachable_has_element this :
  reachable this -> _isActive this = true -> is_Some (_ref this).
Proof.
  induction 1 as [| this this' Hreach IH Hstep | this this' Hreach IH Hstep];
    intros Hon.
  - unfold render in *.
    destruct (negb _ || _); [discriminate |]. cbn [createContainer].
    destruct (render_forEach _ _ _ _). by eexists.
  - destruct (_isActive this) eqn:Hprev.
    + by destruct (goTo_keeps_element 1 this this' Hprev Hstep).
    + unfold next in Hstep. rewrite goTo_inactive in Hstep by done.
      injection Hstep as <-. congruence.
  - destruct (_isActive this) eqn:Hprev.
    + by destruct (goTo_keeps_element (-1) this this' Hprev Hstep).
    + unfold prev in Hstep. rewrite goTo_inactive in Hstep by done.
      injection Hstep as <-. congruence.
Qed.

Lemma reachable_goTo_succeeds this sign :
  reachable this -> is_Some (_goTo sign this).
Proof.
  intros Hreach.
  destruct (_isActive this) eqn:Hon.
  - destruct (reachable_has_element this Hreach Hon) as [spans Href].
    unfold _goTo. rewrite Hon. cbn [negb]. cbn [_ref with_currentIndex].
    rewrite Href. destruct (_ && _).
    + rewrite inserted_bullet. by eexists.
    + by eexists.
  - rewrite goTo_inactive by done. by eexists.
Qed.

(** A pagination made without options is active exactly when there are two
    slides or more. *)
Lemma reachable_active_iff this :
  isActive opts = None ->
  reachable this -> _isActive this = (2 <=? total).
Proof.
  intros Hdefault.
  induction 1 as [| this this' Hreach IH Hstep | this this' Hreach IH Hstep].
  - unfold render, constructor. cbn [_isActive _totalSlides].
    rewrite Hdefault. cbn [default from_option id negb orb].
    destruct (Z.ltb_spec total 2).
    + cbn. symmetry. apply Z.leb_gt. lia.
    + cbn [createContainer]. destruct (render_forEach _ _ _ _).
      cbn. symmetry. apply Z.leb_le. lia.
  - destruct (_isActive this) eqn:Hprev.
    + destruct (goTo_keeps_element 1 this this' Hprev Hstep) as [Hon _].
      congruence.
    + unfold next in Hstep. rewrite goTo_inactive in Hstep by done.
      injection Hstep as <-. congruence.
  - destruct (_isActive this) eqn:Hprev.
    + destruct (goTo_keeps_element (-1) this this' Hprev Hstep) as [Hon _].
      congruence.
    + unfold prev in Hstep. rewrite goTo_inactive in Hstep by done.
      injection Hstep as <-. congruence.
Qed.

(** X14: [_goTo] throws only for want of a pagination element: never in a state
    reached after [render], whatever the options and the sign, but always
    in an active object that was not rendered and whose container held no
    pagination element. *)
Theorem goTo_throws_only_without_element :
  (forall this sign, reachable this -> is_Some (_goTo sign this))
  /\ (forall sign,
        default true (isActive opts) = true ->
        _goTo sign (constructor None total opts supply) = None).
Proof.
  split.
  - intros this sign Hreach. by apply reachable_goTo_succeeds.
  - intros sign Hon. unfold _goTo.
    change (_isActive (constructor None total opts supply))
      with (default true (isActive opts)).
    rewrite Hon. reflexivity.
Qed.

Section AtLeastOneBullet.

Hypothesis Hbullets : 1 <= default 5 (bullets opts).

(** X15: the strip of an active pagination keeps its size: in every reachable
    active state it holds [min(total, bullets)] bullets, all different
    elements, and the current index is the index of a slide. *)
Theorem strip_keeps_its_size this :
  reachable this -> _isActive this = true ->
  len (strip this) = Z.min total (default 5 (bullets opts))
  /\ NoDup (uid <$> strip this)
  /\ 0 <= _currentIndex this < total.
Proof.
  intros Hreach Hon.
  destruct (reachable_wellFormed _ _ _ _ Hbullets this Hreach)
    as (_ & Hlength & _ & Hwf & _).
  destruct (Hwf Hon) as (_ & Hcur & spans & Href & Hlen & Hdistinct & _).
  unfold strip. rewrite Href. cbn [default from_option id].
  rewrite Hlen, Hlength. done.
Qed.

(** X16: in every reachable active state of a pagination configured with at
    least one bullet, each bullet is placed at its slot times the diameter,
    and it carries the edge class exactly when it is the first bullet and the real index
    of slot 0 is not 0, or the last bullet (not also the first) and the
    real index after that of the last slot is still an item. *)
Theorem strip_positions_and_edges this :
  reachable this -> _isActive this = true ->
  forall (slot : nat) (bullet : Bullet),
    strip this !! slot = Some bullet ->
    translateX bullet = Some (Z.of_nat slot * _diameter this)
    /\ (edgeClass bullet = true <->
        (Z.of_nat slot = 0
         /\ getRealIndex 0 (_currentIndex this) (activeSlot this) <> 0)
        \/ (Z.of_nat slot <> 0
            /\ Z.of_nat slot = _bulletsLength this - 1
            /\ getRealIndex (_bulletsLength this - 1) (_currentIndex this)
                 (activeSlot this) + 1
               < _totalSlides this)).
Proof.
  intros Hreach Hon slot bullet Hbullet.
  destruct (reachable_attributesAgree _ _ _ _ Hbullets this Hreach Hon
              slot bullet Hbullet) as (Hedge & Hposition & _).
  split; [exact Hposition |].
  rewrite Hedge. unfold edgeOf, isEdgeBullet.
  destruct (Z.eqb_spec (Z.of_nat slot) 0) as [Hzero | Hnonzero].
  - rewrite Hzero.
    destruct (Z.eqb_spec 0 (getRealIndex 0 (_currentIndex this)
                              (activeSlot this))) as [Heq | Hne]; cbn.
    + split; [discriminate | intros [[_ ?] | [? _]]; congruence].
    + split; [intros _; left; split; congruence | reflexivity].
  - destruct (Z.eqb_spec (Z.of_nat slot) (_bulletsLength this - 1))
      as [Hlast | Hinner].
    + rewrite Z.ltb_lt, Hlast. split.
      * intros Hlt. right. split; [lia | split; [reflexivity | exact Hlt]].
      * intros [[? _] | (_ & _ & Hlt)]; [lia | exact Hlt].
    + split; [discriminate | intros [[? _] | (_ & ? & _)]; lia].
Qed.

(** X17: two bullets of the strip are never active together. *)
Theorem at_most_one_active this :
  reachable this -> _isActive this = true ->
  forall (slot slot' : nat) (bullet bullet' : Bullet),
    strip this !! slot = Some bullet ->
    strip this !! slot' = Some bullet' ->
    activeClass bullet = true -> activeClass bullet' = true ->
    slot = slot'.
Proof.
  intros Hreach Hon slot slot' bullet bullet' Hbullet Hbullet' Hmark Hmark'.
  pose proof (reachable_attributesAgree _ _ _ _ Hbullets this Hreach Hon)
    as Hagree.
  destruct (Hagree slot bullet Hbullet) as (_ & _ & Hslot).
  destruct (Hagree slot' bullet' Hbullet') as (_ & _ & Hslot').
  specialize (Hslot Hmark). specialize (Hslot' Hmark'). lia.
Qed.

(** X18: with an odd number of bullets, three or more, or with a bullet for
    every item, the bullet of the active slot is active, every other bullet
    is not, and the real index of that slot is the current index. *)
Theorem one_active_bullet this :
  reachable this -> _isActive this = true ->
  (_bulletsLength this mod 2 = 1 /\ 3 <= _bulletsLength this)
  \/ _bulletsLength this >= _totalSlides this ->
  exists bullet,
    strip this !! Z.to_nat (activeSlot this) = Some bullet
    /\ activeClass bullet = true
    /\ realIndices this !! Z.to_nat (activeSlot this)
       = Some (_currentIndex this)
    /\ forall (slot : nat) (other : Bullet),
         strip this !! slot = Some other ->
         activeClass other = true -> slot = Z.to_nat (activeSlot this).
Proof.
  intros Hreach Hon Hshape.
  pose proof (reachable_wellFormed _ _ _ _ Hbullets this Hreach) as Hwf.
  destruct Hwf as (Htotal & Hlength & Hcenter & Hwf & _).
  destruct (Hwf Hon) as (Htwo & Hcur & spans & Href & Hlen & _).
  assert (0 <= activeSlot this <= _bulletsLength this - 1) as Hslot.
  { unfold activeSlot. rewrite Hcenter.
    apply mapActiveIndex_in_strip; lia. }
  assert (activeAgrees this) as Hagree.
  { apply (reachable_activeAgrees _ _ _ _ Hbullets this Hreach Hon). lia. }
  assert (strip this = spans) as Hstrip
    by (unfold strip; by rewrite Href).
  destruct (lookup_lt_is_Some_2 spans (Z.to_nat (activeSlot this)))
    as [bullet Hbullet]; [unfold len in Hlen; lia |].
  exists bullet. rewrite Hstrip. split; [exact Hbullet |].
  rewrite <- Hstrip in Hbullet. split; [| split].
  - rewrite (Hagree _ _ Hbullet). apply Z.eqb_eq. lia.
  - unfold realIndices, range. rewrite Hstrip, list_lookup_fmap.
    rewrite lookup_seqZ_lt by lia. cbn. f_equal. unfold getRealIndex. lia.
  - intros slot other Hother Hmark. rewrite <- Hstrip in Hother.
    rewrite (Hagree _ _ Hother) in Hmark. apply Z.eqb_eq in Hmark. lia.
Qed.

(** X19: with a bullet for every item a step never evicts or creates a bullet:
    the strip holds the same elements afterwards. *)
Theorem all_shown_keeps_bullets sign this :
  reachable this -> _isActive this = true ->
  _bulletsLength this >= _totalSlides this ->
  sign = 1 \/ sign = -1 ->
  exists this',
    _goTo sign this = Some this'
    /\ uid <$> strip this' = uid <$> strip this
    /\ doc_next this' = doc_next this.
Proof.
  intros Hreach Hon Hall Hsign.
  destruct (reachable_wellFormed _ _ _ _ Hbullets this Hreach)
    as (_ & _ & Hcenter & Hwf & _).
  destruct (Hwf Hon) as (_ & _ & spans & Href & Hlen & _).
  destruct (goTo_active sign this spans Hon Href Hlen Hsign)
    as (spans' & Hgo & Huids).
  set (moved := with_currentIndex this _) in Hgo, Huids.
  assert (evictionDue sign moved = false) as Hdue
    by (apply evictionDue_all_shown; [exact Hsign | exact Hcenter | exact Hall]).
  rewrite Hdue in Hgo, Huids.
  eexists. split; [exact Hgo |].
  unfold strip. cbn [_ref with_ref doc_next default from_option id].
  rewrite Href. cbn [default from_option id]. done.
Qed.

(** X20: with an odd number of bullets, or a bullet for every item, the real
    indices represented by the strip are the consecutive indices from that
    of slot 0, and all of them are indices of items: the window they form
    never runs over either end of the items. *)
Theorem realIndices_window this :
  reachable this -> _isActive this = true ->
  _bulletsLength this mod 2 = 1 \/ _bulletsLength this >= _totalSlides this ->
  realIndices this
  = range (_currentIndex this - activeSlot this)
      (_currentIndex this - activeSlot this + _bulletsLength this - 1)
  /\ 0 <= _currentIndex this - activeSlot this
  /\ _currentIndex this - activeSlot this + _bulletsLength this
     <= _totalSlides this.
Proof.
  intros Hreach Hon Hshape.
  destruct (reachable_wellFormed _ _ _ _ Hbullets this Hreach)
    as (Htotal & Hlength & Hcenter & Hwf & _).
  destruct (Hwf Hon) as (Htwo & Hcur & spans & Href & Hlen & _).
  split.
  - unfold realIndices, strip, range. rewrite Href.
    cbn [default from_option id]. rewrite Hlen.
    replace (_bulletsLength this - 1 - 0 + 1) with (_bulletsLength this)
      by lia.
    replace (_currentIndex this - activeSlot this + _bulletsLength this - 1
             - (_currentIndex this - activeSlot this) + 1)
      with (_bulletsLength this) by lia.
    transitivity (Z.add (_currentIndex this - activeSlot this)
                    <$> seqZ 0 (_bulletsLength this)).
    + apply list_fmap_ext. intros i index _. reflexivity.
    + rewrite fmap_add_seqZ. f_equal. lia.
  - unfold activeSlot. rewrite Hcenter. unfold mapActiveIndex.
    pose proof (Z.div_mod (_bulletsLength this) 2 ltac:(lia)).
    destruct (Z.geb_spec (_bulletsLength this) (_totalSlides this)); lia.
Qed.

End AtLeastOneBullet.

End StripInvariants.

(** * Moving back and forth *)

Section BackAndForth.

Variables (found : option (list Bullet)) (total : Z) (opts : Options)
  (supply : nat).

Hypothesis Hbullets : 1 <= default 5 (bullets opts).

Implicit Types (this : Pagination) (sign : Z).

Local Abbreviation reachable := (reachable found total opts supply).
Local Abbreviation wellFormed := (wellFormed found total opts supply).

Lemma rewind_prev current items :
  0 <= current < items ->
  rewind (current + -1) (items - 1) = (current - 1) mod items.
Proof.
  intros Hcur. unfold rewind.
  destruct (Z.gtb_spec (current + -1) (items - 1)); [lia |].
  destruct (Z.ltb_spec (current + -1) 0).
  - apply (Z.mod_unique_pos _ _ (-1)); lia.
  - rewrite Z.mod_small by lia. lia.
Qed.

Lemma rewind_prev_next current items :
  0 <= current < items ->
  rewind (rewind (current + -1) (items - 1) + 1) (items - 1) = current.
Proof.
  intros Hcur. unfold rewind.
  destruct (Z.gtb_spec (current + -1) (items - 1)); [lia |].
  destruct (Z.ltb_spec (current + -1) 0).
  - destruct (Z.gtb_spec (items - 1 + 1) (items - 1)); lia.
  - destruct (Z.gtb_spec (current + -1 + 1) (items - 1)); [lia |].
    destruct (Z.ltb_spec (current + -1 + 1) 0); lia.
Qed.

(** Going backward [n] times from an active state never fails, stays active
    and takes [n] from the current index modulo the number of items. *)
Lemma advance_times_prev n this :
  wellFormed this -> _isActive this = true ->
  exists this_n,
    advance_times (-1) n this = Some this_n
    /\ wellFormed this_n
    /\ _isActive this_n = true
    /\ _currentIndex this_n = (_currentIndex this - Z.of_nat n) mod total.
Proof.
  revert this. induction n as [| n IH]; intros this Hwf Hactive.
  - exists this. split; [reflexivity |]. split; [done |]. split; [done |].
    destruct Hwf as (_ & _ & _ & Hon & _).
    destruct (Hon Hactive) as (_ & Hcur & _).
    change (Z.of_nat 0) with 0.
    rewrite Z.sub_0_r, Z.mod_small; [reflexivity | done].
  - pose proof Hwf as (Htotal & _ & _ & Hon & _).
    destruct (Hon Hactive) as (_ & Hcur & spans & Href & Hlen & _).
    destruct (goTo_active (-1) this spans Hactive Href Hlen ltac:(by right))
      as (spans' & Hgo & _).
    set (middle := with_ref _ (Some spans') _) in Hgo.
    pose proof (goTo_wellFormed _ _ _ _ Hbullets (-1) this middle
                  ltac:(by right) Hwf Hgo) as Hwf'.
    assert (_isActive middle = true) as Hactive' by exact Hactive.
    destruct (IH middle Hwf' Hactive')
      as (this_n & Hrun & Hwf_n & Hactive_n & Hcur_n).
    exists this_n. cbn [advance_times]. rewrite Hgo.
    split; [done |]. split; [done |]. split; [done |].
    rewrite Hcur_n. cbn [middle _currentIndex with_ref with_currentIndex].
    rewrite Htotal, rewind_prev by done.
    rewrite Zminus_mod_idemp_l. f_equal. lia.
Qed.

(** X21: the current index after [n] calls of [next], and after [n] calls of
    [prev], from a reachable active state: the calls succeed and the index
    has moved by [n] modulo the number of items, forward or backward. *)
Theorem advance_times_index n this :
  reachable this -> _isActive this = true ->
  (exists forward,
     advance_times 1 n this = Some forward
     /\ _currentIndex forward = (_currentIndex this + Z.of_nat n) mod total)
  /\ (exists backward,
        advance_times (-1) n this = Some backward
        /\ _currentIndex backward
           = (_currentIndex this - Z.of_nat n) mod total).
Proof.
  intros Hreach Hon.
  pose proof (reachable_wellFormed _ _ _ _ Hbullets this Hreach) as Hwf.
  split.
  - destruct (advance_times_next _ _ _ _ Hbullets n this Hwf Hon)
      as (forward & Hrun & _ & _ & Hcur).
    by exists forward.
  - destruct (advance_times_prev n this Hwf Hon)
      as (backward & Hrun & _ & _ & Hcur).
    by exists backward.
Qed.

(** X22: [prev] followed by [next] succeeds and leaves the current index and the
    real indices represented by the strip as they were. *)
Theorem prev_next_restores this :
  reachable this ->
  exists middle final,
    prev this = Some middle
    /\ next middle = Some final
    /\ _currentIndex final = _currentIndex this
    /\ realIndices final = realIndices this.
Proof.
  intros Hreach.
  pose proof (reachable_wellFormed _ _ _ _ Hbullets this Hreach) as Hwf.
  destruct (_isActive this) eqn:Hactive.
  - pose proof Hwf as (Htotal & Hlength & Hcenter & Hon & _).
    destruct (Hon Hactive) as (Htwo & Hcur & spans & Href & Hlen & _).
    destruct (goTo_active (-1) this spans Hactive Href Hlen ltac:(by right))
      as (spans1 & Hgo1 & _).
    set (middle := with_ref _ (Some spans1) _) in Hgo1.
    pose proof (goTo_wellFormed _ _ _ _ Hbullets (-1) this middle
                  ltac:(by right) Hwf Hgo1) as Hwf1.
    assert (_isActive middle = true) as Hactive1 by exact Hactive.
    pose proof Hwf1 as (_ & _ & _ & Hon1 & _).
    destruct (Hon1 Hactive1) as (_ & _ & spans1' & Href1 & Hlen1 & _).
    destruct (goTo_active 1 middle spans1' Hactive1 Href1 Hlen1
                ltac:(by left))
      as (spans2 & Hgo2 & _).
    set (final := with_ref _ (Some spans2) _) in Hgo2.
    pose proof (goTo_wellFormed _ _ _ _ Hbullets 1 middle final
                  ltac:(by left) Hwf1 Hgo2) as Hwf2.
    assert (_isActive final = true) as Hactive2 by exact Hactive.
    pose proof Hwf2 as (_ & _ & _ & Hon2 & _).
    destruct (Hon2 Hactive2) as (_ & _ & spans2' & Href2 & Hlen2 & _).
    assert (_currentIndex final = _currentIndex this) as Hback.
    { cbn [final middle _currentIndex with_ref with_currentIndex _totalSlides].
      apply rewind_prev_next. lia. }
    exists middle, final. split; [exact Hgo1 |]. split; [exact Hgo2 |].
    split; [exact Hback |].
    apply realIndices_stable; try reflexivity; [exact Hback |].
    unfold strip. rewrite Href2, Href. cbn [default from_option id].
    rewrite Hlen2, Hlen. reflexivity.
  - exists this, this. unfold next, prev.
    rewrite !goTo_inactive by done. done.
Qed.

End BackAndForth.


(** * The widget and its slides *)

Section WidgetMoves.

Variable isMounted : list Virchual.Call -> Z -> bool.

Implicit Types (this : Virchual.Virchual) (history : list Virchual.Call)
  (direction : Virchual.Direction) (entry : option Z).

Lemma forEach_calls (callback : list Virchual.Call -> option Z
                                -> list Virchual.Call * bool)
    (calls : option Z -> list Virchual.Call) (entries : list (option Z))
    history :
  (forall history' entry,
     entry ∈ entries -> callback history' entry = (history' ++ calls entry, false)) ->
  Virchual.forEach callback entries history
  = (history ++ concat (calls <$> entries), false).
Proof.
  revert history. induction entries as [| entry entries IH];
    intros history Hcalls.
  - cbn. by rewrite app_nil_r.
  - cbn [Virchual.forEach]. rewrite Hcalls by left.
    rewrite IH by (intros; apply Hcalls; by right).
    cbn [fmap list_fmap concat]. by rewrite app_assoc.
Qed.

Lemma indexOf_from_absent (items : list (option Z)) entry position :
  entry ∉ items -> Virchual.indexOf_from items entry position = -1.
Proof.
  revert position. induction items as [| item items IH];
    intros position Habsent; [reflexivity |].
  cbn [Virchual.indexOf_from].
  destruct (decide (item = entry)) as [-> | _].
  - exfalso. apply Habsent. by left.
  - apply IH. intros Hin. apply Habsent. by right.
Qed.

Lemma indexOf_from_lookup (items : list (option Z)) entry position (k : nat) :
  NoDup items -> items !! k = Some entry ->
  Virchual.indexOf_from items entry position = position + Z.of_nat k.
Proof.
  revert position k. induction items as [| item items IH];
    intros position k Hdistinct Hlookup; [discriminate |].
  apply NoDup_cons in Hdistinct as [Hfresh Hdistinct].
  cbn [Virchual.indexOf_from].
  destruct k as [| k].
  - injection Hlookup as ->. rewrite decide_True by done. lia.
  - cbn in Hlookup. rewrite decide_False.
    + rewrite (IH (position + 1) k) by done. lia.
    + intros ->. apply Hfresh. by eapply list_elem_of_lookup_2.
Qed.

(** Positions less than a length apart have different remainders. *)
Lemma modulo_apart p q count :
  0 < count -> Z.abs (p - q) < count -> p mod count = q mod count -> p = q.
Proof.
  intros Hcount Hnear Hsame.
  pose proof (Z.div_mod p count ltac:(lia)) as Hp.
  pose proof (Z.div_mod q count ltac:(lia)) as Hq.
  rewrite Hsame in Hp.
  assert (p - q = count * (p / count - q / count)) as Hdiff by lia.
  assert (p / count - q / count = 0) as Hturns by nia.
  rewrite Hturns in Hdiff. lia.
Qed.

(** The window over the slide indices, for a radius that reaches at most
    [N] below the current index. *)
Lemma window_of_indices count current size :
  0 <= current < count -> 0 <= size <= current + count ->
  slidingWindow (range 0 (count - 1)) current size
  = wrappedIndex count <$> range (current - size) (current + size).
Proof.
  intros Hcurrent Hsize.
  assert (len (range 0 (count - 1)) = count) as Hlen
    by (rewrite length_range; lia).
  rewrite slidingWindow_wrapped by lia.
  apply list_fmap_ext. intros i position _. rewrite Hlen.
  apply range_lookup_self. apply Z.mod_pos_bound. lia.
Qed.

Lemma forEach_fmap_calls (callback : list Virchual.Call -> option Z
                                     -> list Virchual.Call * bool)
    (entryOf : Z -> option Z) (calls : Z -> list Virchual.Call)
    (positions : list Z) history :
  (forall history' position,
     position ∈ positions ->
     callback history' (entryOf position)
     = (history' ++ calls position, false)) ->
  Virchual.forEach callback (entryOf <$> positions) history
  = (history ++ concat (calls <$> positions), false).
Proof.
  revert history. induction positions as [| position positions IH];
    intros history Hcalls.
  - cbn. by rewrite app_nil_r.
  - cbn [fmap list_fmap Virchual.forEach]. rewrite Hcalls by left.
    rewrite IH by (intros; apply Hcalls; by right).
    cbn [concat]. by rewrite app_assoc.
Qed.

Lemma slideAt_inside this index :
  0 <= index < Virchual.slides this ->
  Virchual.slideAt this (Some index) = Some index.
Proof.
  intros Hindex. unfold Virchual.slideAt.
  destruct (Z.leb_spec 0 index); [| lia].
  destruct (Z.ltb_spec index (Virchual.slides this)); [reflexivity | lia].
Qed.

(** The calls of [mountAndUnmountSlides] when the window and its two
    neighbours are all different slides. *)
Lemma mountAndUnmountSlides_calls this direction history :
  0 <= Virchual.currentIndex this < Virchual.slides this ->
  0 <= Virchual.window this ->
  2 * Virchual.window this + 3 <= Virchual.slides this ->
  Virchual.mountAndUnmountSlides isMounted this (Some direction) history
  = (history ++ moveCalls this direction, false).
Proof.
  intros Hcurrent Hwindow Hwide.
  set (current := Virchual.currentIndex this) in *.
  set (radius := Virchual.window this) in *.
  set (count := Virchual.slides this) in *.
  unfold Virchual.mountAndUnmountSlides. fold current radius count.
  rewrite !window_of_indices by lia.
  set (prepend :=
         match direction with
         | Virchual.Prev => true
         | Virchual.Next => false
         end).
  set (calls := fun position : Z =>
         if decide (current - radius <= position <= current + radius) then
           [Virchual.SetIsActive current (position =? current);
            Virchual.SetPosition (position mod count)
              ((position - current) * 100);
            Virchual.Mount (position mod count) prepend]
         else
           [Virchual.SetIsActive current false;
            Virchual.Unmount (position mod count)]).
  assert (NoDup (wrappedIndex count
                   <$> range (current - radius) (current + radius)))
    as Hdistinct.
  { apply NoDup_fmap_2_strong; [| apply NoDup_seqZ].
    intros p q Hp Hq [= Hsame]. unfold range in Hp, Hq.
    apply elem_of_seqZ in Hp, Hq.
    apply (modulo_apart p q count); [lia | lia | done]. }
  rewrite (forEach_fmap_calls _ (wrappedIndex count) calls).
  - f_equal. f_equal. unfold moveCalls. fold current radius count prepend.
    unfold range.
    replace (current + (radius + 1) - (current - (radius + 1)) + 1)
      with (1 + ((2 * radius + 1) + 1)) by lia.
    replace (current + radius - (current - radius) + 1)
      with (2 * radius + 1) by lia.
    rewrite (seqZ_app _ 1) by lia. rewrite (seqZ_app _ (2 * radius + 1) 1) by lia.
    rewrite !(seqZ_cons _ 1), !(seqZ_nil _ (Z.pred 1)) by lia.
    replace (current - (radius + 1) + 1) with (current - radius) by lia.
    rewrite !fmap_app, !concat_app. cbn [fmap list_fmap concat app].
    rewrite !app_nil_r.
    unfold calls at 1. rewrite decide_False by lia.
    unfold calls at 2. rewrite decide_False by lia.
    replace (current - (radius + 1)) with (current - radius - 1) by lia.
    replace (current - radius + (2 * radius + 1)) with (current + radius + 1)
      by lia.
    cbn [app]. do 4 f_equal.
    apply list_fmap_ext. intros k position Hposition.
    apply lookup_seqZ in Hposition. unfold calls.
    rewrite decide_True by lia. reflexivity.
  - intros history' position Hposition.
    unfold range in Hposition. apply elem_of_seqZ in Hposition.
    pose proof (Z.mod_pos_bound position count ltac:(lia)) as Hslide.
    assert (Virchual.slideAt this (wrappedIndex count position)
            = Some (position mod count)) as Hat
      by (apply slideAt_inside; fold count; lia).
    assert (Virchual.slideAt this (Some current) = Some current) as Hcur
      by (apply slideAt_inside; fold count; lia).
    assert (bool_decide (wrappedIndex count position = Some current)
            = (position =? current)) as Hactive.
    { unfold wrappedIndex.
      destruct (Z.eqb_spec position current) as [-> | Hne].
      - rewrite Z.mod_small by lia. by apply bool_decide_eq_true.
      - apply bool_decide_eq_false. intros [= Hsame].
        apply Hne. apply (modulo_apart position current count); [lia | lia |].
        rewrite Hsame. symmetry. apply Z.mod_small. lia. }
    unfold Virchual.mountOrUnmount. fold current radius count.
    rewrite Hat, Hcur, Hactive.
    unfold calls.
    destruct (decide (current - radius <= position <= current + radius))
      as [Hinside | Houtside].
    + assert (Virchual.indexOf
                (wrappedIndex count
                   <$> range (current - radius) (current + radius))
                (wrappedIndex count position)
              = position - (current - radius)) as Hindex.
      { unfold Virchual.indexOf.
        rewrite (indexOf_from_lookup _ _ 0
                   (Z.to_nat (position - (current - radius))));
          [lia | exact Hdistinct |].
        rewrite list_lookup_fmap. unfold range.
        rewrite lookup_seqZ_lt by lia. cbn. do 2 f_equal. lia. }
      rewrite Hindex.
      destruct (Z.ltb_spec (position - (current - radius)) 0); [lia |].
      replace ((radius - (position - (current - radius))) * -100)
        with ((position - current) * 100) by lia.
      unfold prepend. destruct direction.
      * rewrite <- !app_assoc. reflexivity.
      * rewrite <- !app_assoc. reflexivity.
    + assert (Virchual.indexOf
                (wrappedIndex count
                   <$> range (current - radius) (current + radius))
                (wrappedIndex count position) = -1) as Hindex.
      { apply indexOf_from_absent. intros Hin.
        apply list_elem_of_fmap in Hin as (other & [= Hsame] & Hother).
        unfold range in Hother. apply elem_of_seqZ in Hother.
        apply Houtside.
        rewrite (modulo_apart position other count); [lia | lia | lia | done]. }
      rewrite Hindex. cbn [Z.ltb Z.compare].
      assert ((position =? current) = false) as -> by (apply Z.eqb_neq; lia).
      rewrite <- !app_assoc. reflexivity.
Qed.

End WidgetMoves.

Section WidgetInvariants.

Variable isMounted : list Virchual.Call -> Z -> bool.

Variables (found : option (list Bullet)) (slideCount : Z)
  (windowOption : option Z) (supply : nat).

Implicit Types (this : Virchual.Virchual) (history : list Virchual.Call)
  (direction : Virchual.Direction).

Local Abbreviation widgetReachable :=
  (widgetReachable isMounted found slideCount windowOption supply).
Local Abbreviation paginationReachable :=
  (reachable found slideCount (mkOptions None None None) supply).

Lemma slideAt_Some this index slide :
  Virchual.slideAt this (Some index) = Some slide ->
  slide = index /\ 0 <= index < Virchual.slides this.
Proof.
  unfold Virchual.slideAt.
  destruct (Z.leb_spec 0 index); [| discriminate].
  destruct (Z.ltb_spec index (Virchual.slides this)); [| discriminate].
  intros [= <-]. lia.
Qed.

(** What a move that returned has done to the fields. *)
Lemma go_returned direction this history this' history' :
  Virchual.go isMounted direction this history = (this', history', false) ->
  0 <= Virchual.currentIndex this < Virchual.slides this
  /\ exists moved,
       _goTo (signOf direction) (Virchual.pagination this) = Some moved
       /\ this'
          = Virchual.with_pagination
              (Virchual.with_currentIndex this
                 (rewind (Virchual.currentIndex this + signOf direction)
                    (Virchual.slides this - 1)))
              moved.
Proof.
  unfold Virchual.go.
  destruct (Virchual.slideAt this (Some (Virchual.currentIndex this)))
    as [slide |] eqn:Hslide; [| discriminate].
  apply slideAt_Some in Hslide as [-> Hcurrent].
  destruct (Virchual.mountAndUnmountSlides _ _ _ _) as [calls thrown].
  destruct thrown; [discriminate |].
  cbn [Virchual.pagination Virchual.with_currentIndex].
  intros Hgo. split; [exact Hcurrent |].
  destruct direction; cbn [signOf] in *; unfold prev, next in Hgo.
  - destruct (_goTo (-1) (Virchual.pagination this)) as [moved |];
      [| discriminate].
    injection Hgo as <- <-. exists moved. split; [reflexivity |].
    by rewrite Z.mul_1_r.
  - destruct (_goTo 1 (Virchual.pagination this)) as [moved |];
      [| discriminate].
    injection Hgo as <- <-. exists moved. split; [reflexivity |].
    by rewrite Z.mul_1_r.
Qed.

Lemma rewind_single sign :
  sign = 1 \/ sign = -1 -> rewind (0 + sign) (1 - 1) = 0.
Proof. intros [-> | ->]; reflexivity. Qed.

Lemma signOf_unit direction : signOf direction = 1 \/ signOf direction = -1.
Proof. destruct direction; [by right | by left]. Qed.

(** The fields of a reachable widget: the slides and the window are those
    of the constructor, the pagination is a reachable one, both indices
    agree, and the index is that of a slide when there is a slide. *)
Lemma widgetReachable_fields this :
  widgetReachable this ->
  Virchual.slides this = slideCount
  /\ Virchual.window this = default 1 windowOption
  /\ paginationReachable (Virchual.pagination this)
  /\ Virchual.currentIndex this = _currentIndex (Virchual.pagination this)
  /\ 0 <= Virchual.currentIndex this < Z.max 1 slideCount.
Proof.
  induction 1 as [| direction this history this' history' Hreach IH Hgo].
  - split; [reflexivity |]. split; [reflexivity |].
    split; [apply reachable_render |].
    cbn [Virchual.constructor Virchual.currentIndex Virchual.pagination].
    split; [| lia].
    unfold render. destruct (negb _ || _); [reflexivity |].
    cbn [createContainer]. destruct (render_forEach _ _ _ _). reflexivity.
  - destruct IH as (Hslides & Hwindow & Hpagination & Hsame & Hrange).
    destruct (go_returned direction this history this' history' Hgo)
      as (Hcurrent & moved & Hmoved & ->).
    cbn [Virchual.slides Virchual.window Virchual.pagination
         Virchual.currentIndex Virchual.with_pagination
         Virchual.with_currentIndex].
    split; [exact Hslides |]. split; [exact Hwindow |].
    assert (paginationReachable moved) as Hreachable.
    { destruct direction.
      - by apply (reachable_prev _ _ _ _ (Virchual.pagination this)).
      - by apply (reachable_next _ _ _ _ (Virchual.pagination this)). }
    split; [exact Hreachable |].
    rewrite Hslides in *.
    pose proof (rewind_in_range
                  (Virchual.currentIndex this + signOf direction)
                  (slideCount - 1) ltac:(lia)) as Hnew.
    split; [| lia].
    pose proof (reachable_wellFormed found slideCount
                  (mkOptions None None None) supply ltac:(cbn; lia)
                  (Virchual.pagination this) Hpagination)
      as (Htotal & _ & _ & Hon & Hoff).
    destruct (_isActive (Virchual.pagination this)) eqn:Hactive.
    + destruct (Hon eq_refl) as (_ & _ & spans & Href & Hlen & _).
      destruct (goTo_active (signOf direction) (Virchual.pagination this)
                  spans Hactive Href Hlen (signOf_unit direction))
        as (spans' & Hgo' & _).
      rewrite Hgo' in Hmoved. injection Hmoved as <-.
      cbn [_currentIndex with_ref Pagination.with_currentIndex].
      by rewrite Htotal, <- Hsame.
    + rewrite goTo_inactive in Hmoved by done. injection Hmoved as <-.
      pose proof (reachable_active_iff found slideCount
                    (mkOptions None None None) supply
                    (Virchual.pagination this) eq_refl Hpagination)
        as Hiff.
      rewrite Hactive in Hiff. symmetry in Hiff. apply Z.leb_gt in Hiff.
      assert (slideCount = 1) as -> by lia.
      assert (Virchual.currentIndex this = 0) as Hzero by lia.
      rewrite <- Hsame, Hzero.
      apply rewind_single, signOf_unit.
Qed.

(** X23: the index of the widget and the index of its pagination are the same
    after any number of moves, and the index is that of a slide whenever
    there is one. *)
Theorem widget_and_pagination_agree this :
  widgetReachable this ->
  Virchual.currentIndex this = _currentIndex (Virchual.pagination this)
  /\ 0 <= Virchual.currentIndex this < Z.max 1 slideCount.
Proof.
  intros Hreach.
  by destruct (widgetReachable_fields this Hreach) as (_ & _ & _ & ? & ?).
Qed.

Lemma forEach_returns (callback : list Virchual.Call -> option Z
                                  -> list Virchual.Call * bool)
    (entries : list (option Z)) history :
  (forall history' entry,
     entry ∈ entries -> (callback history' entry).2 = false) ->
  (Virchual.forEach callback entries history).2 = false.
Proof.
  revert history. induction entries as [| entry entries IH];
    intros history Hreturns; [reflexivity |].
  cbn [Virchual.forEach].
  pose proof (Hreturns history entry ltac:(by left)) as Hentry.
  destruct (callback history entry) as [history' thrown].
  cbn [snd] in Hentry. subst thrown.
  apply IH. intros. apply Hreturns. by right.
Qed.

(** With a direction, the callback throws only on a missing slide. *)
Lemma mountOrUnmount_returns this direction mountable history index slide :
  0 <= Virchual.currentIndex this < Virchual.slides this ->
  Virchual.slideAt this index = Some slide ->
  (Virchual.mountOrUnmount isMounted this (Some direction) mountable history
     index).2 = false.
Proof.
  intros Hcurrent Hslide. unfold Virchual.mountOrUnmount.
  rewrite (slideAt_inside this _ Hcurrent), Hslide.
  destruct (_ <? 0); [reflexivity |]. by destruct direction.
Qed.

Lemma get_single item index : get [item] index = Some item.
Proof.
  destruct (Z.lt_trichotomy index 0) as [Hneg | [-> | Hpos]].
  - by apply get_singleton.
  - reflexivity.
  - rewrite get_above by (unfold len; cbn; lia).
    change (len [item]) with 1. by rewrite Z.mod_1_r.
Qed.

(** Every entry of the window with offset is a slide, when the window with
    its offset reaches at most [N] below the current index, or when there
    is one slide only. *)
Lemma window_entries_are_slides this index :
  0 <= Virchual.currentIndex this < Virchual.slides this ->
  0 <= Virchual.window this ->
  Virchual.window this + 1 <= Virchual.slides this
  \/ Virchual.slides this = 1 ->
  index ∈ slidingWindow (range 0 (Virchual.slides this - 1))
            (Virchual.currentIndex this) (Virchual.window this + 1) ->
  exists slide, Virchual.slideAt this index = Some slide.
Proof.
  intros Hcurrent Hwindow [Hfits | Hsingle] Hin.
  - rewrite window_of_indices in Hin by lia.
    apply list_elem_of_fmap in Hin as (position & -> & _).
    eexists. apply slideAt_inside. apply Z.mod_pos_bound. lia.
  - rewrite Hsingle in *. change (range 0 (1 - 1)) with [0] in Hin.
    assert (Virchual.currentIndex this = 0) as Hzero by lia.
    rewrite Hzero in Hin. unfold slidingWindow in Hin.
    assert (index = Some 0) as ->.
    { apply elem_of_app in Hin as [Hin | Hin].
      - apply list_elem_of_fmap in Hin as (position & -> & _).
        apply get_single.
      - apply elem_of_cons in Hin as [-> | Hin]; [reflexivity |].
        apply list_elem_of_fmap in Hin as (position & -> & _).
        apply get_single. }
    eexists. apply slideAt_inside. lia.
Qed.

(** X24: a move of a reachable widget returns without an exception, whatever the
    direction, as soon as the window is not negative and, with its offset
    of one, is not wider on one side than there are slides, or there is
    exactly one slide. *)
Theorem go_returns this direction history :
  widgetReachable this ->
  0 <= default 1 windowOption ->
  default 1 windowOption + 1 <= slideCount \/ slideCount = 1 ->
  (Virchual.go isMounted direction this history).2 = false.
Proof.
  intros Hreach Hwindow Hfits.
  destruct (widgetReachable_fields this Hreach)
    as (Hslides & Hradius & Hpagination & _ & Hcurrent).
  assert (0 <= Virchual.currentIndex this < Virchual.slides this)
    as Hcurrent' by (rewrite Hslides; lia).
  unfold Virchual.go. rewrite (slideAt_inside this _ Hcurrent').
  set (moved := Virchual.with_currentIndex this _).
  assert (0 <= Virchual.currentIndex moved < Virchual.slides moved)
    as Hmoved.
  { cbn [moved Virchual.currentIndex Virchual.slides
         Virchual.with_currentIndex].
    pose proof (rewind_in_range
                  (Virchual.currentIndex this
                   + match direction with
                     | Virchual.Prev => -1
                     | Virchual.Next => 1
                     end * 1)
                  (Virchual.slides this - 1) ltac:(lia)).
    lia. }
  pose proof (forEach_returns
                (Virchual.mountOrUnmount isMounted moved (Some direction)
                   (slidingWindow (range 0 (Virchual.slides moved - 1))
                      (Virchual.currentIndex moved) (Virchual.window moved)))
                (slidingWindow (range 0 (Virchual.slides moved - 1))
                   (Virchual.currentIndex moved) (Virchual.window moved + 1))
                (history ++ [Virchual.Translate (Virchual.currentIndex this)
                               (-100)]))
    as Hloop.
  unfold Virchual.mountAndUnmountSlides.
  destruct (Virchual.forEach _ _ _) as [calls thrown].
  cbn [snd] in Hloop. rewrite Hloop.
  - change (Virchual.pagination moved) with (Virchual.pagination this).
    destruct direction.
    + destruct (reachable_goTo_succeeds _ _ _ _ (Virchual.pagination this)
                  (-1) Hpagination) as [after Hafter].
      unfold prev. by rewrite Hafter.
    + destruct (reachable_goTo_succeeds _ _ _ _ (Virchual.pagination this)
                  1 Hpagination) as [after Hafter].
      unfold next. by rewrite Hafter.
  - intros history' index Hindex.
    destruct (window_entries_are_slides moved index Hmoved) as [slide Hslide].
    + change (Virchual.window moved) with (Virchual.window this). lia.
    + change (Virchual.window moved) with (Virchual.window this).
      change (Virchual.slides moved) with (Virchual.slides this). lia.
    + exact Hindex.
    + by apply (mountOrUnmount_returns moved direction _ _ index slide).
Qed.

(** X25: the calls of a move, when the slides are enough for the window and its
    two neighbours to be all different: the current slide is translated,
    then, for the new index, the slide left of the window is unmounted, the
    slides of the window are positioned at their distance from the new
    current slide times 100 and mounted, and the slide right of the window
    is unmounted.  The new index is the old one moved by one, modulo the
    number of slides. *)
Theorem go_calls this direction history :
  widgetReachable this ->
  0 <= default 1 windowOption ->
  2 * default 1 windowOption + 3 <= slideCount ->
  exists this',
    Virchual.go isMounted direction this history
    = (this',
       history
       ++ Virchual.Translate (Virchual.currentIndex this) (-100)
          :: moveCalls this' direction,
       false)
    /\ Virchual.currentIndex this'
       = (Virchual.currentIndex this + signOf direction) mod slideCount.
Proof.
  intros Hreach Hwindow Hwide.
  destruct (widgetReachable_fields this Hreach)
    as (Hslides & Hradius & Hpagination & _ & Hcurrent).
  assert (0 <= Virchual.currentIndex this < Virchual.slides this)
    as Hcurrent' by (rewrite Hslides; lia).
  unfold Virchual.go. rewrite (slideAt_inside this _ Hcurrent').
  set (moved := Virchual.with_currentIndex this _).
  assert (Virchual.currentIndex moved
          = (Virchual.currentIndex this + signOf direction) mod slideCount)
    as Hindex.
  { cbn [moved Virchual.currentIndex Virchual.with_currentIndex].
    rewrite Hslides. destruct direction; cbn [signOf].
    - rewrite Z.mul_1_r, rewind_prev by lia. f_equal.
    - rewrite Z.mul_1_r, rewind_next by lia. reflexivity. }
  assert (0 <= Virchual.currentIndex moved < Virchual.slides moved)
    as Hmoved.
  { rewrite Hindex. change (Virchual.slides moved) with (Virchual.slides this).
    rewrite Hslides. apply Z.mod_pos_bound. lia. }
  rewrite (mountAndUnmountSlides_calls isMounted moved direction);
    [| exact Hmoved
     | change (Virchual.window moved) with (Virchual.window this); lia
     | change (Virchual.window moved) with (Virchual.window this);
       change (Virchual.slides moved) with (Virchual.slides this); lia].
  change (Virchual.pagination moved) with (Virchual.pagination this).
  assert (exists after,
            match direction with
            | Virchual.Prev => prev
            | Virchual.Next => next
            end (Virchual.pagination this) = Some after)
    as [after Hafter].
  { destruct direction.
    - apply (reachable_goTo_succeeds _ _ _ _ (Virchual.pagination this)
               (-1) Hpagination).
    - apply (reachable_goTo_succeeds _ _ _ _ (Virchual.pagination this)
               1 Hpagination). }
  rewrite Hafter.
  exists (Virchual.with_pagination moved after).
  split; [| exact Hindex].
  rewrite <- app_assoc. reflexivity.
Qed.

End WidgetInvariants.

(** * The further properties on sample paginations and widgets *)

Lemma render_bullets_witness :
  _isActive (render (constructor None 10 defaults 0)) = true
  /\ len (strip (render (constructor None 10 defaults 0)))
     = Z.min 10 (default 5 (bullets defaults))
  /\ forall (slot : nat) (bullet : Bullet),
       strip (render (constructor None 10 defaults 0)) !! slot = Some bullet ->
       uid bullet = (S 0 + slot)%nat
       /\ activeClass bullet = (Z.of_nat slot =? 0)
       /\ (edgeClass bullet = true <->
           Z.of_nat slot <> 0
           /\ Z.of_nat slot = Z.min 10 (default 5 (bullets defaults)) - 1
           /\ Z.min 10 (default 5 (bullets defaults)) < 10)
       /\ translateX bullet
          = Some (Z.of_nat slot * default 16 (diameter defaults)).
Proof.
  apply (render_bullets None 10 defaults 0).
  - reflexivity.
  - lia.
  - simpl. lia.
Defined.

Lemma goTo_throws_only_without_element_witness :
  _goTo 1 (constructor None 10 defaults 0) = None.
Proof.
  apply (proj2 (goTo_throws_only_without_element None 10 defaults 0)).
  reflexivity.
Defined.

Lemma strip_keeps_its_size_witness :
  len (strip ten_slides_at_two) = Z.min 10 (default 5 (bullets defaults))
  /\ NoDup (uid <$> strip ten_slides_at_two)
  /\ 0 <= _currentIndex ten_slides_at_two < 10.
Proof.
  apply (strip_keeps_its_size None 10 defaults 0).
  - simpl. lia.
  - apply ten_slides_at_two_reachable.
  - reflexivity.
Defined.

Lemma strip_positions_and_edges_witness :
  exists bullet,
    strip ten_slides_at_two !! 4%nat = Some bullet
    /\ translateX bullet = Some (Z.of_nat 4 * _diameter ten_slides_at_two)
    /\ (edgeClass bullet = true <->
        (Z.of_nat 4 = 0
         /\ getRealIndex 0 (_currentIndex ten_slides_at_two)
              (activeSlot ten_slides_at_two) <> 0)
        \/ (Z.of_nat 4 <> 0
            /\ Z.of_nat 4 = _bulletsLength ten_slides_at_two - 1
            /\ getRealIndex (_bulletsLength ten_slides_at_two - 1)
                 (_currentIndex ten_slides_at_two)
                 (activeSlot ten_slides_at_two) + 1
               < _totalSlides ten_slides_at_two)).
Proof.
  eexists. split; [vm_compute; reflexivity |].
  apply (strip_positions_and_edges None 10 defaults 0).
  - simpl. lia.
  - apply ten_slides_at_two_reachable.
  - reflexivity.
  - vm_compute. reflexivity.
Defined.

Lemma at_most_one_active_witness :
  exists bullet,
    strip ten_slides_at_two !! 2%nat = Some bullet
    /\ activeClass bullet = true
    /\ 2%nat = 2%nat.
Proof.
  eexists. split; [vm_compute; reflexivity |]. split; [reflexivity |].
  eapply (at_most_one_active None 10 defaults 0).
  - simpl. lia.
  - apply ten_slides_at_two_reachable.
  - reflexivity.
  - vm_compute. reflexivity.
  - vm_compute. reflexivity.
  - reflexivity.
  - reflexivity.
Defined.

Lemma one_active_bullet_witness :
  exists bullet,
    strip ten_slides_at_two !! Z.to_nat (activeSlot ten_slides_at_two)
    = Some bullet
    /\ activeClass bullet = true
    /\ realIndices ten_slides_at_two
       !! Z.to_nat (activeSlot ten_slides_at_two)
       = Some (_currentIndex ten_slides_at_two)
    /\ forall (slot : nat) (other : Bullet),
         strip ten_slides_at_two !! slot = Some other ->
         activeClass other = true ->
         slot = Z.to_nat (activeSlot ten_slides_at_two).
Proof.
  apply (one_active_bullet None 10 defaults 0).
  - simpl. lia.
  - apply ten_slides_at_two_reachable.
  - reflexivity.
  - left. split; [reflexivity |]. vm_compute. discriminate.
Defined.

Lemma all_shown_keeps_bullets_witness :
  exists this',
    _goTo 1 three_slides = Some this'
    /\ uid <$> strip this' = uid <$> strip three_slides
    /\ doc_next this' = doc_next three_slides.
Proof.
  apply (all_shown_keeps_bullets None 3 defaults 0).
  - simpl. lia.
  - apply reachable_render.
  - reflexivity.
  - vm_compute. discriminate.
  - by left.
Defined.

Lemma realIndices_window_witness :
  realIndices ten_slides_at_two
  = range (_currentIndex ten_slides_at_two - activeSlot ten_slides_at_two)
      (_currentIndex ten_slides_at_two - activeSlot ten_slides_at_two
       + _bulletsLength ten_slides_at_two - 1)
  /\ 0 <= _currentIndex ten_slides_at_two - activeSlot ten_slides_at_two
  /\ _currentIndex ten_slides_at_two - activeSlot ten_slides_at_two
     + _bulletsLength ten_slides_at_two
     <= _totalSlides ten_slides_at_two.
Proof.
  apply (realIndices_window None 10 defaults 0).
  - simpl. lia.
  - apply ten_slides_at_two_reachable.
  - reflexivity.
  - left. reflexivity.
Defined.

Lemma advance_times_index_witness :
  (exists forward,
     advance_times 1 13 ten_slides = Some forward
     /\ _currentIndex forward
        = (_currentIndex ten_slides + Z.of_nat 13) mod 10)
  /\ (exists backward,
        advance_times (-1) 13 ten_slides = Some backward
        /\ _currentIndex backward
           = (_currentIndex ten_slides - Z.of_nat 13) mod 10).
Proof.
  apply (advance_times_index None 10 defaults 0).
  - simpl. lia.
  - apply reachable_render.
  - reflexivity.
Defined.

Lemma prev_next_restores_witness :
  exists middle final,
    prev ten_slides = Some middle
    /\ next middle = Some final
    /\ _currentIndex final = _currentIndex ten_slides
    /\ realIndices final = realIndices ten_slides.
Proof.
  apply (prev_next_restores None 10 defaults 0).
  - simpl. lia.
  - apply reachable_render.
Defined.

Lemma widget_and_pagination_agree_witness :
  Virchual.currentIndex ten_slide_widget
  = _currentIndex (Virchual.pagination ten_slide_widget)
  /\ 0 <= Virchual.currentIndex ten_slide_widget < Z.max 1 10.
Proof.
  apply (widget_and_pagination_agree never_mounted None 10 None 0).
  apply widget_constructed.
Defined.

Lemma go_returns_witness :
  (Virchual.go never_mounted Virchual.Prev ten_slide_widget []).2 = false.
Proof.
  apply (go_returns never_mounted None 10 None 0).
  - apply widget_constructed.
  - simpl. lia.
  - left. simpl. lia.
Defined.

Lemma go_calls_witness :
  exists this',
    Virchual.go never_mounted Virchual.Prev ten_slide_widget []
    = (this',
       []
       ++ Virchual.Translate (Virchual.currentIndex ten_slide_widget) (-100)
          :: moveCalls this' Virchual.Prev,
       false)
    /\ Virchual.currentIndex this'
       = (Virchual.currentIndex ten_slide_widget + signOf Virchual.Prev)
         mod 10.
Proof.
  apply (go_calls never_mounted None 10 None 0).
  - apply widget_constructed.
  - simpl. lia.
  - simpl. lia.
Defined.

(** A move backward from the first of ten slides: the calls, in order. *)
Example go_prev_from_first :
  (Virchual.go never_mounted Virchual.Prev ten_slide_widget []).1.2
  = [Virchual.Translate 0 (-100);
     Virchual.SetIsActive 9 false; Virchual.Unmount 7;
     Virchual.SetIsActive 9 false; Virchual.SetPosition 8 (-100);
     Virchual.Mount 8 true;
     Virchual.SetIsActive 9 true; Virchual.SetPosition 9 0;
     Virchual.Mount 9 true;
     Virchual.SetIsActive 9 false; Virchual.SetPosition 0 100;
     Virchual.Mount 0 true;
     Virchual.SetIsActive 9 false; Virchual.Unmount 1].
Proof. vm_compute. reflexivity. Qed.

(** * The first mount, and a widget without slides *)

Section WidgetEdges.

Variable isMounted : list Virchual.Call -> Z -> bool.

Variables (found : option (list Bullet)) (slideCount : Z)
  (windowOption : option Z) (supply : nat).

Implicit Types (this : Virchual.Virchual) (history : list Virchual.Call).

Local Abbreviation widgetReachable :=
  (widgetReachable isMounted found slideCount windowOption supply).

(** Without a direction the callback reads the first slide as well; it
    still throws only on a missing slide. *)
Lemma mountOrUnmount_first_returns this mountable history index slide :
  0 <= Virchual.currentIndex this < Virchual.slides this ->
  Virchual.slideAt this index = Some slide ->
  (Virchual.mountOrUnmount isMounted this None mountable history index).2
  = false.
Proof.
  intros Hcurrent Hslide. unfold Virchual.mountOrUnmount.
  rewrite (slideAt_inside this _ Hcurrent), Hslide.
  destruct (_ <? 0); [reflexivity |].
  rewrite (slideAt_inside this 0) by lia. reflexivity.
Qed.

(** X26: [mount()] returns without an exception under the conditions under which
    a move does: a window that is not negative and, with its offset, not
    wider on one side than there are slides, or exactly one slide. *)
Theorem mount_returns this history :
  widgetReachable this ->
  0 <= default 1 windowOption ->
  default 1 windowOption + 1 <= slideCount \/ slideCount = 1 ->
  (Virchual.mount isMounted this history).2 = false.
Proof.
  intros Hreach Hwindow Hfits.
  destruct (widgetReachable_fields isMounted found slideCount windowOption
              supply this Hreach)
    as (Hslides & Hradius & _ & _ & Hcurrent).
  assert (0 <= Virchual.currentIndex this < Virchual.slides this)
    as Hcurrent' by (rewrite Hslides; lia).
  unfold Virchual.mount, Virchual.mountAndUnmountSlides.
  apply forEach_returns. intros history' index Hindex.
  destruct (window_entries_are_slides this index Hcurrent')
    as [slide Hslide]; [lia | lia | exact Hindex |].
  by apply (mountOrUnmount_first_returns this _ _ index slide).
Qed.

(** X27: a widget without slides cannot be mounted or moved: [mount()] throws at
    the first entry of its window, whatever the window option, and [go]
    throws at once, for either direction. *)
Theorem widget_without_slides_throws this direction history :
  Virchual.slides this = 0 ->
  (Virchual.mount isMounted this history).2 = true
  /\ (Virchual.go isMounted direction this history).2 = true.
Proof.
  intros Hnone.
  assert (Virchual.slideAt this (Some (Virchual.currentIndex this)) = None)
    as Hmissing.
  { unfold Virchual.slideAt. rewrite Hnone.
    destruct (Z.leb_spec 0 (Virchual.currentIndex this));
      destruct (Z.ltb_spec (Virchual.currentIndex this) 0);
      try reflexivity.
    lia. }
  split.
  - unfold Virchual.mount, Virchual.mountAndUnmountSlides.
    unfold slidingWindow at 2.
    destruct (get _ <$> range _ _) as [| first rest].
    + cbn [app Virchual.forEach].
      unfold Virchual.mountOrUnmount. by rewrite Hmissing.
    + cbn [app Virchual.forEach].
      unfold Virchual.mountOrUnmount. by rewrite Hmissing.
  - unfold Virchual.go. by rewrite Hmissing.
Qed.

End WidgetEdges.

Lemma mount_returns_witness :
  (Virchual.mount never_mounted ten_slide_widget []).2 = false.
Proof.
  apply (mount_returns never_mounted None 10 None 0).
  - apply widget_constructed.
  - simpl. lia.
  - left. simpl. lia.
Defined.

Lemma widget_without_slides_throws_witness :
  (Virchual.mount never_mounted (Virchual.constructor None 0 None 0) []).2
  = true
  /\ (Virchual.go never_mounted Virchual.Next
        (Virchual.constructor None 0 None 0) []).2 = true.
Proof.
  apply (widget_without_slides_throws never_mounted
           (Virchual.constructor None 0 None 0) Virchual.Next []).
  reflexivity.
Defined.

(** * Going round, whatever the options *)

Section Closure.

Variables (found : option (list Bullet)) (total : Z) (opts : Options)
  (supply : nat).

Implicit Types (this : Pagination) (sign : Z).

Local Abbreviation reachable := (reachable found total opts supply).

(** What a step of an active pagination does to the index, whatever its
    strip. *)
Lemma goTo_index sign this this' :
  _isActive this = true -> _goTo sign this = Some this' ->
  _totalSlides this' = _totalSlides this
  /\ _currentIndex this'
     = rewind (_currentIndex this + sign) (_totalSlides this - 1).
Proof.
  intros Hon. unfold _goTo. rewrite Hon. cbn [negb].
  cbn [_ref with_currentIndex].
  destruct (_ref this) as [spans |]; [| discriminate].
  destruct (_ && _).
  - rewrite inserted_bullet. by intros [= <-].
  - by intros [= <-].
Qed.

(** The number of items never changes, and the index of an active
    pagination is the index of an item. *)
Lemma reachable_index this :
  reachable this ->
  _totalSlides this = total
  /\ (_isActive this = true -> 2 <= total /\ 0 <= _currentIndex this < total).
Proof.
  induction 1 as [| this this' Hreach IH Hstep | this this' Hreach IH Hstep].
  - unfold render.
    change (_totalSlides (constructor found total opts supply)) with total.
    destruct (negb _); cbn [orb].
    + split; [reflexivity | discriminate].
    + destruct (Z.ltb_spec total 2).
      * split; [reflexivity | discriminate].
      * cbn [createContainer]. destruct (render_forEach _ _ _ _).
        split; [reflexivity |]. intros _. cbn. lia.
  - destruct IH as [Htotal Hon].
    destruct (_isActive this) eqn:Hprev.
    + destruct (goTo_index 1 this this' Hprev Hstep) as [Hsame Hmoved].
      destruct (Hon eq_refl) as [Htwo Hcur].
      split; [congruence |]. intros _. split; [exact Htwo |].
      rewrite Hmoved, Htotal.
      pose proof (rewind_in_range (_currentIndex this + 1) (total - 1)). lia.
    + unfold next in Hstep. rewrite goTo_inactive in Hstep by done.
      injection Hstep as <-. split; [exact Htotal |]. congruence.
  - destruct IH as [Htotal Hon].
    destruct (_isActive this) eqn:Hprev.
    + destruct (goTo_index (-1) this this' Hprev Hstep) as [Hsame Hmoved].
      destruct (Hon eq_refl) as [Htwo Hcur].
      split; [congruence |]. intros _. split; [exact Htwo |].
      rewrite Hmoved, Htotal.
      pose proof (rewind_in_range (_currentIndex this + -1) (total - 1)). lia.
    + unfold prev in Hstep. rewrite goTo_inactive in Hstep by done.
      injection Hstep as <-. split; [exact Htotal |]. congruence.
Qed.

Lemma advance_times_inactive sign n this :
  _isActive this = false -> advance_times sign n this = Some this.
Proof.
  intros Hoff. induction n as [| n IH]; [reflexivity |].
  cbn [advance_times]. by rewrite goTo_inactive.
Qed.

(** Going forward [n] times from any reachable active state succeeds and
    adds [n] to the index modulo the number of items, whatever the options
    of the strip. *)
Lemma advance_times_forward n this :
  reachable this -> _isActive this = true ->
  exists this_n,
    advance_times 1 n this = Some this_n
    /\ _currentIndex this_n = (_currentIndex this + Z.of_nat n) mod total.
Proof.
  revert this. induction n as [| n IH]; intros this Hreach Hon.
  - exists this. split; [reflexivity |].
    destruct (reachable_index this Hreach) as [_ Hrange].
    destruct (Hrange Hon) as [_ Hcur].
    change (Z.of_nat 0) with 0.
    rewrite Z.add_0_r, Z.mod_small; [reflexivity | done].
  - destruct (reachable_goTo_succeeds found total opts supply this 1 Hreach)
      as [middle Hmiddle].
    destruct (reachable_index this Hreach) as [Htotal Hrange].
    destruct (Hrange Hon) as [_ Hcur].
    destruct (goTo_index 1 this middle Hon Hmiddle) as [_ Hmoved].
    destruct (goTo_keeps_element 1 this middle Hon Hmiddle) as [Hon' _].
    destruct (IH middle (reachable_next _ _ _ _ this middle Hreach Hmiddle)
                Hon')
      as (this_n & Hrun & Hindex).
    exists this_n. cbn [advance_times]. rewrite Hmiddle.
    split; [exact Hrun |].
    rewrite Hindex, Hmoved, Htotal, rewind_next by done.
    rewrite Zplus_mod_idemp_l. f_equal. lia.
Qed.

(** C6 (amended): from every reachable state of a pagination with two items
    or more, whatever its options, [advance(+1)] called [totalItems] times
    succeeds and returns the current index to its starting value; and when
    the pagination is active and configured with at least one bullet, their
    number being odd or at least the number of items, then after any number
    of such steps the real indices represented by the strip contain the
    current index. *)
Theorem advance_closure this :
  reachable this -> 2 <= total ->
  (exists final,
     advance_times 1 (Z.to_nat (_totalSlides this)) this = Some final
     /\ _currentIndex final = _currentIndex this)
  /\ (_isActive this = true ->
      1 <= default 5 (bullets opts) ->
      _bulletsLength this mod 2 = 1
      \/ _bulletsLength this >= _totalSlides this ->
      forall n, exists this_n,
        advance_times 1 n this = Some this_n
        /\ _currentIndex this_n ∈ realIndices this_n).
Proof.
  intros Hreach Htwo.
  destruct (reachable_index this Hreach) as [Htotal Hrange].
  split.
  - destruct (_isActive this) eqn:Hon.
    + destruct (Hrange eq_refl) as [_ Hcur].
      destruct (advance_times_forward (Z.to_nat total) this Hreach Hon)
        as (final & Hrun & Hfinal).
      exists final. rewrite Htotal. split; [exact Hrun |].
      rewrite Hfinal, Z2Nat.id by lia.
      replace (_currentIndex this + total)
        with (_currentIndex this + 1 * total) by lia.
      rewrite Z_mod_plus_full. by apply Z.mod_small.
    + exists this. split; [by apply advance_times_inactive | reflexivity].
  - intros Hon Hbullets Hshape n.
    pose proof (reachable_wellFormed found total opts supply Hbullets this
                  Hreach) as Hwf.
    pose proof Hwf as (_ & Hlength & _).
    destruct (advance_times_next found total opts supply Hbullets n this
                Hwf Hon)
      as (this_n & Hrun & Hwf_n & Hon_n & _).
    exists this_n. split; [exact Hrun |].
    apply (current_covered found total opts supply Hbullets); [done | done |].
    destruct Hwf_n as (Htotal_n & Hlength_n & _).
    rewrite Hlength_n, Htotal_n. by rewrite Hlength, Htotal in Hshape.
Qed.

End Closure.

Lemma advance_closure_witness :
  (exists final,
     advance_times 1 (Z.to_nat (_totalSlides ten_slides)) ten_slides
     = Some final
     /\ _currentIndex final = _currentIndex ten_slides)
  /\ (forall n, exists this_n,
        advance_times 1 n ten_slides = Some this_n
        /\ _currentIndex this_n ∈ realIndices this_n).
Proof.
  destruct (advance_closure None 10 defaults 0 ten_slides)
    as [Hclosure Hcovered].
  - apply reachable_render.
  - lia.
  - split; [exact Hclosure |]. apply Hcovered.
    + reflexivity.
    + simpl. lia.
    + left. reflexivity.
Defined.

(** The claim C5 fails for a strip configured with no bullet: going forward
    from index 0 of ten items the eviction rule applies to the moved index,
    yet no bullet leaves the strip, which is empty. *)
Lemma eviction_without_bullets :
  reachable None 10 no_bullets 0 ten_slides_no_bullets
  /\ _isActive ten_slides_no_bullets = true
  /\ exists this',
       _goTo 1 ten_slides_no_bullets = Some this'
       /\ evictionDue 1 this' = true
       /\ evictedSlots ten_slides_no_bullets this' = []
       /\ evictedSlots ten_slides_no_bullets this' <> [evictedSlot 1 this'].
Proof.
  split; [apply reachable_render |]. split; [reflexivity |].
  eexists. split; [vm_compute; reflexivity |].
  split; [vm_compute; reflexivity |].
  split; [vm_compute; reflexivity |].
  vm_compute. discriminate.
Qed.

(** The claim C7 fails for a strip configured with no bullet: [next] and
    then [prev] each insert a bullet and remove none, so that the real
    indices represented by the strip, none before, are 0 and 1 after. *)
Lemma next_prev_without_bullets :
  reachable None 10 no_bullets 0 ten_slides_no_bullets
  /\ 2 <= _totalSlides ten_slides_no_bullets
  /\ exists middle final,
       next ten_slides_no_bullets = Some middle
       /\ prev middle = Some final
       /\ realIndices ten_slides_no_bullets = []
       /\ realIndices final = [0; 1]
       /\ realIndices final <> realIndices ten_slides_no_bullets.
Proof.
  split; [apply reachable_render |]. split; [vm_compute; discriminate |].
  eexists _, _. split; [vm_compute; reflexivity |].
  split; [vm_compute; reflexivity |].
  split; [vm_compute; reflexivity |].
  split; [vm_compute; reflexivity |].
  vm_compute. discriminate.
Qed.
